(** * local_gmv: frame synthesis, station positions and the budget guard

    A shallow embedding of [scripts/local_gmv.py].

    Conventions of the embedding.
    - Python floats (timestamps, sampling rates, samples, coordinates,
      scores) are exact rationals [Q]: rounding error, NaN and the
      infinities are outside the model.  Rationals are compared with
      [==], [<] and [<=] of [QArith].
    - A Python exception is a value [Raise e] of [result]; [try]/[except]
      is a match on it.
    - The station-position dictionary is a [gmap string (Q * Q)]; the
      dictionaries whose key order the program reads back
      ([station_traces], [station_max]) are insertion-ordered association
      lists ([PyDict]).
    - What the program obtains from outside (files on disk, ObsPy, segyio,
      matplotlib, the command line) is an explicit input record. *)

From Stdlib Require Import ZArith QArith Qround Qabs Lia Lqa Ascii String.
From stdpp Require Import base option list gmap strings sorting.

Local Open Scope Q_scope.

(** ** Numbers *)

Module Num.

Definition Qltb (x y : Q) : bool := negb (Qle_bool y x).
Definition Qleb (x y : Q) : bool := Qle_bool x y.

(** Python's built-in [round] on a float: to the nearest integer, a tie
    goes to the even neighbour. *)
Definition py_round (x : Q) : Z :=
  let f := Qfloor x in
  let d := x - inject_Z f in
  if Qltb d (1 # 2) then f
  else if Qltb (1 # 2) d then (f + 1)%Z
  else if Z.even f then f else (f + 1)%Z.

(** ObsPy's [compatibility.round_away]: to the nearest integer, a tie
    goes away from zero. *)
Definition round_away (x : Q) : Z :=
  if Qleb 0 x then Qfloor (x + (1 # 2)) else Qceiling (x - (1 # 2)).

(** [max(a, b)] of Python on two floats: the first argument unless the
    second is strictly greater. *)
Definition py_max (a b : Q) : Q := if Qltb a b then b else a.

(** [np.max(np.abs(data))] of a non-empty array. *)
Definition max_abs (data : list Q) : Q :=
  match data with
  | [] => 0
  | x :: rest => foldl (fun m y => py_max m (Qabs y)) (Qabs x) rest
  end.

End Num.
Export Num.

(** ** Exceptions *)

Inductive Exn : Type :=
| ZeroDivisionError
| ValueError
| MemoryError
| RuntimeError
| IndexError
| KeyError
| OtherError.

Inductive result (A : Type) : Type :=
| Ok (a : A)
| Raise (e : Exn).
Arguments Ok {A} a.
Arguments Raise {A} e.

#[global] Instance result_ret : MRet result := fun A a => Ok a.
#[global] Instance result_bind : MBind result := fun A B f m =>
  match m with
  | Ok a => f a
  | Raise e => Raise e
  end.

(** ** SEG-Y geometry: the scale heuristic *)

(** The candidate list of [_pick_segy_scale], in the order it is scanned. *)
Definition candidates : list Q :=
  [1 # 1000; 1 # 10000; 1 # 100000; 1 # 1000000;
   1 # 10000000; 1 # 100000000; 1 # 1000000000].

(** One entry of the array [ok]: both scaled coordinates are strictly
    inside the longitude and latitude ranges. *)
Definition in_range (sc gx gy : Q) : bool :=
  let lon := gx * sc in
  let lat := gy * sc in
  (Qltb (-180) lon && Qltb lon 180) && (Qltb (-90) lat && Qltb lat 90).

Definition ok_array (gx_vals gy_vals : list Q) (sc : Q) : list bool :=
  zip_with (in_range sc) gx_vals gy_vals.

(** [float(np.sum(ok)) / len(ok)]; dividing by [len(ok) = 0] raises. *)
Definition score_of (gx_vals gy_vals : list Q) (sc : Q) : result Q :=
  let ok := ok_array gx_vals gy_vals sc in
  match length ok with
  | O => Raise ZeroDivisionError
  | S _ =>
      Ok (inject_Z (Z.of_nat (length (filter (fun b => b = true) ok)))
          / inject_Z (Z.of_nat (length ok)))
  end.

(** The body of the [for sc in candidates] loop on the pair
    [(best, best_score)]. *)
Definition pick_step (gx_vals gy_vals : list Q)
    (st : option Q * Q) (sc : Q) : result (option Q * Q) :=
  score ← score_of gx_vals gy_vals sc;
  if Qltb (snd st) score then Ok (Some sc, score) else Ok st.

Fixpoint pick_loop (gx_vals gy_vals : list Q) (cands : list Q)
    (st : option Q * Q) : result (option Q * Q) :=
  match cands with
  | [] => Ok st
  | sc :: rest =>
      st' ← pick_step gx_vals gy_vals st sc;
      pick_loop gx_vals gy_vals rest st'
  end.

Definition _pick_segy_scale (gx_vals gy_vals : list Q) : result (option Q) :=
  st ← pick_loop gx_vals gy_vals candidates (None, -1);
  if Qleb (95 # 100) (snd st) then Ok (fst st) else Ok None.

(** ** Strings *)

Module Str.

(** The ASCII characters that [str.strip()] removes. *)
Definition is_space (a : ascii) : bool :=
  let n := nat_of_ascii a in
  ((9 <=? n) && (n <=? 13) || (28 <=? n) && (n <=? 32))%nat.

Fixpoint lstrip (s : string) : string :=
  match s with
  | EmptyString => EmptyString
  | String a rest => if is_space a then lstrip rest else s
  end.

Fixpoint rstrip (s : string) : string :=
  match s with
  | EmptyString => EmptyString
  | String a rest =>
      match rstrip rest with
      | EmptyString => if is_space a then EmptyString else String a EmptyString
      | rest' => String a rest'
      end
  end.

Definition strip (s : string) : string := rstrip (lstrip s).

(** [s.split(sep)] for a one-character separator: always at least one
    field. *)
Fixpoint split (sep : ascii) (s : string) : list string :=
  match s with
  | EmptyString => [EmptyString]
  | String a rest =>
      if Ascii.eqb a sep then EmptyString :: split sep rest
      else match split sep rest with
           | [] => [String a EmptyString]
           | field :: fields => String a field :: fields
           end
  end.

Definition lower_ascii (a : ascii) : ascii :=
  let n := nat_of_ascii a in
  if ((65 <=? n) && (n <=? 90))%nat then ascii_of_nat (n + 32) else a.

Fixpoint lower (s : string) : string :=
  match s with
  | EmptyString => EmptyString
  | String a rest => String (lower_ascii a) (lower rest)
  end.

Definition endswith (s suffix : string) : bool :=
  let n := String.length s in
  let k := String.length suffix in
  (k <=? n)%nat && String.eqb (substring (n - k) k s) suffix.

Definition digit (n : nat) : ascii := ascii_of_nat (48 + n).

Fixpoint digits_fuel (fuel : nat) (n : N) (acc : string) : string :=
  match fuel with
  | O => acc
  | S fuel' =>
      let acc' := String (digit (N.to_nat (n mod 10))) acc in
      if (n / 10 =? 0)%N then acc' else digits_fuel fuel' (n / 10)%N acc'
  end.

(** The decimal digits of a natural number. *)
Definition decimal (n : N) : string :=
  digits_fuel (S (N.to_nat (N.log2 n))) n EmptyString.

Fixpoint zeros (k : nat) : string :=
  match k with
  | O => EmptyString
  | S k' => String "0" (zeros k')
  end.

(** The format [{n:05d}]: sign, then zeros up to a total width of five. *)
Definition format_05d (n : Z) : string :=
  let body := decimal (Z.abs_N n) in
  if (n <? 0)%Z
  then String "-" (zeros (4 - String.length body) ++ body)
  else zeros (5 - String.length body) ++ body.

End Str.

(** ** Insertion-ordered dictionaries *)

Module PyDict.

Definition t (V : Type) : Type := list (string * V).

Fixpoint get {V} (k : string) (d : t V) : option V :=
  match d with
  | [] => None
  | (k', v) :: rest => if String.eqb k k' then Some v else get k rest
  end.

(** [d[k] = v]: a key already present keeps its place, a new key goes
    last. *)
Fixpoint set {V} (k : string) (v : V) (d : t V) : t V :=
  match d with
  | [] => [(k, v)]
  | (k', v') :: rest =>
      if String.eqb k k' then (k, v) :: rest else (k', v') :: set k v rest
  end.

Definition keys {V} (d : t V) : list string := map fst d.

(** [d.get(k, default)]. *)
Definition get_default {V} (k : string) (default : V) (d : t V) : V :=
  match get k d with
  | Some v => v
  | None => default
  end.

End PyDict.

(** ** Traces and positions *)

Record SacHeader : Type := mkSac {
  stla : option Q;   (* absent or None: [None] *)
  stlo : option Q    (* absent: [None] *)
}.

Record Stats : Type := mkStats {
  network : option string;   (* [None]: reading the attribute raises *)
  station : string;
  starttime : Q;             (* seconds since the epoch *)
  sampling_rate : Q;
  sac : option SacHeader
}.

Record Trace : Type := mkTrace {
  stats : Stats;
  data : list Q
}.

Abbreviation Stream := (list Trace).
Abbreviation Positions := (gmap string (Q * Q)).

Definition npts (tr : Trace) : Z := Z.of_nat (length (data tr)).

(** [tr.stats.delta], the sample spacing. *)
Definition delta (tr : Trace) : Q := 1 / sampling_rate (stats tr).

(** [tr.stats.endtime], the time of the last sample. *)
Definition endtime (tr : Trace) : Q :=
  match data tr with
  | [] => starttime (stats tr)
  | _ :: _ => starttime (stats tr) + inject_Z (npts tr - 1) * delta tr
  end.

Definition with_data (tr : Trace) (d : list Q) : Trace :=
  {| stats := stats tr; data := d |}.

Definition with_starttime (tr : Trace) (t : Q) : Trace :=
  {| stats := {| network := network (stats tr); station := station (stats tr);
                 starttime := t; sampling_rate := sampling_rate (stats tr);
                 sac := sac (stats tr) |};
     data := data tr |}.

Definition stream_station_key (tr : Trace) : string :=
  match network (stats tr) with
  | Some net => net +:+ "." +:+ station (stats tr)
  | None => station (stats tr)
  end.

(** An inventory as [inventory_to_positions] reads it: networks, each with
    its code and its stations (code, latitude, longitude). *)
Record StationEntry : Type := mkStation {
  sta_code : string; latitude : Q; longitude : Q
}.
Record NetworkEntry : Type := mkNetwork {
  net_code : string; stations : list StationEntry
}.
Abbreviation Inventory := (list NetworkEntry).

Definition inventory_to_positions (inv : Inventory) : Positions :=
  foldl (fun d net =>
           foldl (fun d sta =>
                    <[net_code net +:+ "." +:+ sta_code sta
                      := (latitude sta, longitude sta)]> d)
                 d (stations net))
        ∅ inv.

(** ** The station table *)

Section StationCsv.

(** Python's [float] on a string; [None] is its [ValueError]. *)
Context (float_of_string : string → option Q).

Definition to_float (s : string) : result Q :=
  match float_of_string s with
  | Some x => Ok x
  | None => Raise ValueError
  end.

(** The body of [for line in fp]. *)
Definition csv_row (d : Positions) (line : string) : result Positions :=
  if String.eqb (Str.strip line) "" then Ok d
  else
    match map Str.strip (Str.split "," (Str.strip line)) with
    | [net; sta; lat; lon] =>
        la ← to_float lat; lo ← to_float lon;
        Ok (<[net +:+ "." +:+ sta := (la, lo)]> d)
    | [sta; lat; lon] =>
        la ← to_float lat; lo ← to_float lon;
        Ok (<[sta := (la, lo)]> d)
    | _ => Ok d
    end.

Fixpoint csv_rows (d : Positions) (lines : list string) : result Positions :=
  match lines with
  | [] => Ok d
  | line :: rest => d' ← csv_row d line; csv_rows d' rest
  end.

(** [load_station_csv] on the lines of the file: [fp.readline()] takes the
    header, the loop reads the rest. *)
Definition load_station_csv (lines : list string) : result Positions :=
  csv_rows ∅ (tail lines).

End StationCsv.

(** ** SEG-Y files *)

(** What [segy_to_stream] reads of one SEG-Y record: the header words it
    looks up, the start time that lines 163-171 derive from the header,
    and the samples. *)
Record SegyRecord : Type := mkSegyRecord {
  GroupX : Z;
  GroupY : Z;
  TraceSequenceLine : option Z;
  header_start : Q;
  samples : list Q
}.

Record SegyFile : Type := mkSegyFile {
  Interval : option Z;    (* [None]: reading [s.bin[BinField.Interval]] raises *)
  records : list SegyRecord
}.

Definition default_scale : Q := 1 # 1000000.

Definition segy_sampling_rate (f : SegyFile) : Q :=
  match Interval f with
  | Some i => if (i =? 0)%Z then 100 else 1000000 / inject_Z i
  | None => 100
  end.

Definition segy_trace_num (i : nat) (r : SegyRecord) : Z :=
  match TraceSequenceLine r with
  | Some n => n
  | None => Z.of_nat i + 1
  end.

Definition segy_name (i : nat) (r : SegyRecord) : string :=
  "SGY." +:+ Str.format_05d (segy_trace_num i r).

Definition segy_trace (sr : Q) (i : nat) (r : SegyRecord) : Trace :=
  {| stats := {| network := Some "SGY"; station := segy_name i r;
                 starttime := header_start r; sampling_rate := sr;
                 sac := None |};
     data := samples r |}.

Definition segy_position (scale : Q) (r : SegyRecord) : Q * Q :=
  (inject_Z (GroupY r) * scale, inject_Z (GroupX r) * scale).

(** The [# Build traces] loop from record [i] on. *)
Fixpoint segy_build (sr scale : Q) (i : nat) (rs : list SegyRecord)
    (acc : Stream * Positions) : Stream * Positions :=
  match rs with
  | [] => acc
  | r :: rest =>
      let tr := segy_trace sr i r in
      segy_build sr scale (S i) rest
        (fst acc ++ [tr],
         <[stream_station_key tr := segy_position scale r]> (snd acc))
  end.

(** [segy_to_stream] on an opened file; [has_segyio] is [HAS_SEGYIO]. *)
Definition segy_to_stream (has_segyio : bool) (file : result SegyFile)
    : result (Stream * Positions) :=
  if negb has_segyio then Raise RuntimeError
  else
    f ← file;
    let sr := segy_sampling_rate f in
    let gx := map (fun r => inject_Z (GroupX r)) (records f) in
    let gy := map (fun r => inject_Z (GroupY r)) (records f) in
    picked ← _pick_segy_scale gx gy;
    let scale := match picked with
                 | Some sc => sc
                 | None => default_scale
                 end in
    Ok (segy_build sr scale 0 (records f) ([], ∅)).

(** ** Trimming a trace

    Library model: ObsPy's [Trace.trim(starttime, endtime, pad=False,
    nearest_sample=True)], the call [prepare_meta] makes.  It cuts on the
    left at the sample nearest to [starttime] and on the right at the
    sample nearest to [endtime]; without padding a trace is never
    extended; a start after the end is a [ValueError]. *)

Module ObsPy.

(** [data[:total]]: a negative bound counts from the end. *)
Definition slice_to (total : Z) (d : list Q) : list Q :=
  if (0 <=? total)%Z then take (Z.to_nat total) d
  else take (Z.to_nat (Z.of_nat (length d) + total)) d.

Definition _ltrim (tr : Trace) (t : Q) : Trace :=
  let d := round_away ((t - starttime (stats tr)) * sampling_rate (stats tr)) in
  if (d <=? 0)%Z then tr
  else
    let tr' := with_starttime tr (starttime (stats tr) + inject_Z d * delta tr) in
    if Qltb (endtime tr') t then with_data tr' []
    else with_data tr' (drop (Z.to_nat d) (data tr)).

Definition _rtrim (tr : Trace) (t : Q) : Trace :=
  let d := (round_away ((t - starttime (stats tr)) * sampling_rate (stats tr))
            - npts tr + 1)%Z in
  if (0 <=? d)%Z then tr
  else if Qltb t (starttime (stats tr))
  then with_data (with_starttime tr (endtime tr + inject_Z d * delta tr)) []
  else
    let total := if Qeq_bool t (starttime (stats tr)) then 1%Z
                 else (npts tr - Z.abs d)%Z in
    with_data tr (slice_to total (data tr)).

Definition trim (tr : Trace) (start stop : Q) : result Trace :=
  if Qltb stop start then Raise ValueError
  else Ok (_rtrim (_ltrim tr start) stop).

End ObsPy.

(** ** Preparing the frames *)

(** [np.arange(start, stop, step)] on floats: [ceil((stop - start) / step)]
    values [start + i * step]; numpy raises on a zero step. *)
Definition arange (start stop step : Q) : result (list Q) :=
  if Qeq_bool step 0 then Raise OtherError
  else
    let n := Qceiling ((stop - start) / step) in
    Ok (map (fun i => start + inject_Z (Z.of_nat i) * step) (seq 0 (Z.to_nat n))).

Record Meta : Type := mkMeta {
  times : list Q;
  station_keys : list string;
  station_max : PyDict.t Q
}.

Section Prepare.

(** numpy's conversion of one sample to single precision,
    [astype(np.float32)]. *)
Context (astype_float32 : Q → Q).

(** The body of [for tr in st] on the pair
    [(station_traces, station_max)]. *)
Definition prepare_step (positions : Positions) (start stop : Q)
    (acc : PyDict.t Trace * PyDict.t Q) (tr : Trace)
    : PyDict.t Trace * PyDict.t Q :=
  let key := stream_station_key tr in
  match positions !! key with
  | None => acc
  | Some _ =>
      match ObsPy.trim tr start stop with
      | Raise _ => acc
      | Ok tr2 =>
          match data tr2 with
          | [] => acc
          | _ :: _ =>
              let tr3 := with_data tr2 (map astype_float32 (data tr2)) in
              (PyDict.set key tr3 (fst acc),
               PyDict.set key (py_max 1 (max_abs (data tr3))) (snd acc))
          end
      end
  end.

Definition prepare_loop (st : Stream) (positions : Positions) (start stop : Q)
    : PyDict.t Trace * PyDict.t Q :=
  foldl (prepare_step positions start stop) ([], []) st.

Definition prepare_meta (st : Stream) (positions : Positions)
    (start stop time_step : Q) : result (PyDict.t Trace * list Q * Meta) :=
  let '(station_traces, station_max) := prepare_loop st positions start stop in
  times ← arange start stop time_step;
  Ok (station_traces, times,
      {| times := times; station_keys := PyDict.keys station_traces;
         station_max := station_max |}).

End Prepare.

(** ** Sampling a frame *)

(** [a[idx]] on a numpy array: a negative index counts from the end, an
    index outside both ranges raises. *)
Definition np_index (a : list Q) (idx : Z) : result Q :=
  let n := Z.of_nat (length a) in
  let i := if (idx <? 0)%Z then (n + idx)%Z else idx in
  if (0 <=? i)%Z && (i <? n)%Z
  then match a !! Z.to_nat i with
       | Some v => Ok v
       | None => Raise IndexError
       end
  else Raise IndexError.

(** The index [sample_tr_at_time] computes. *)
Definition sample_index (tr : Trace) (t : Q) : Z :=
  py_round ((t - starttime (stats tr)) * sampling_rate (stats tr)).

Definition sample_tr_at_time (tr : Trace) (t : Q) : result Q :=
  let idx := sample_index tr t in
  if (idx <? 0)%Z || (npts tr <=? idx)%Z then Ok 0
  else np_index (data tr) idx.

(** Division of two Python floats. *)
Definition py_div (x y : Q) : result Q :=
  if Qeq_bool y 0 then Raise ZeroDivisionError else Ok (x / y).

(** One entry [v] of [vals] in [update]. *)
Definition frame_value (station_traces : PyDict.t Trace) (meta : Meta)
    (t : Q) (key : string) : result Q :=
  tr ← match PyDict.get key station_traces with
       | Some tr => Ok tr
       | None => Raise KeyError
       end;
  let maxv := PyDict.get_default key 1 (station_max meta) in
  s ← sample_tr_at_time tr t;
  py_div s maxv.

(** The list [vals] that [update] builds for the frame at time [t]. *)
Definition frame_vector (station_traces : PyDict.t Trace) (meta : Meta)
    (t : Q) : result (list Q) :=
  mapM (frame_value station_traces meta t) (station_keys meta).

(** [update(i)]: the frame at [times[i]]. *)
Definition update (station_traces : PyDict.t Trace) (meta : Meta)
    (times : list Q) (i : nat) : result (list Q) :=
  match times !! i with
  | Some t => frame_vector station_traces meta t
  | None => Raise IndexError
  end.

(** ** The run

    [main] prints, may stop the process ([sys.exit] or an exception nobody
    catches) and calls [prepare_meta] and [make_animation]; a run is a log
    of these events and the way the process ended. *)

Inductive Msg : Type :=
| NoWaveformFiles
| FoundFiles (n : nat)
| WarnSegy (fn : string)
| WarnRead (fn : string)
| NoPositions
| NoFrames
| TooManyFrames (n_frames max_frames : Z)
| TooMuchMemory (max_mem_mb : Z)
| Generating (n_frames n_stations : Z)
| DryRun
| PrepareMemoryError
| NoStationTraces
| Creating (n_frames : nat)
| AnimationMemoryError
| AnimationError
| Done.

Inductive Event : Type :=
| Printed (m : Msg)
| CallPrepare          (* [prepare_meta] is entered *)
| CallAnimation.       (* [make_animation] is entered *)

Inductive Stop : Type :=
| Returned             (* [main] ran to its end *)
| SysExit (code : Z)
| Uncaught (e : Exn).

(** The exit status the shell sees. *)
Definition exit_status (s : Stop) : Z :=
  match s with
  | Returned => 0
  | SysExit code => code
  | Uncaught _ => 1
  end.

Inductive Step (A : Type) : Type :=
| Next (a : A)
| Halt (s : Stop).
Arguments Next {A} a.
Arguments Halt {A} s.

Definition Run (A : Type) : Type := list Event → list Event * Step A.

#[global] Instance run_ret : MRet Run := fun A a log => (log, Next a).
#[global] Instance run_bind : MBind Run := fun A B f m log =>
  match m log with
  | (log', Next a) => f a log'
  | (log', Halt s) => (log', Halt s)
  end.

Definition emit (e : Event) : Run unit := fun log => (log ++ [e], Next tt).
Definition print (m : Msg) : Run unit := emit (Printed m).
Definition sys_exit {A} (code : Z) : Run A := fun log => (log, Halt (SysExit code)).
Definition raise {A} (e : Exn) : Run A := fun log => (log, Halt (Uncaught e)).

(** An exception no handler catches ends the run. *)
Definition propagate {A} (r : result A) : Run A :=
  match r with
  | Ok a => mret a
  | Raise e => raise e
  end.

Definition when (b : bool) (m : Run unit) : Run unit := if b then m else mret tt.

Record WaveformFile : Type := mkFile {
  path : string;
  segy_content : result SegyFile;   (* what [segyio.open] gives *)
  obspy_read : result Stream        (* what ObsPy's [read] gives *)
}.

(** The command line and the outside world of one run. *)
Record Env : Type := mkEnv {
  HAS_SEGYIO : bool;
  files : list WaveformFile;               (* [find_waveforms(args.data_dir)] *)
  station_xml : option (result Inventory); (* given and existing: [read_inventory] *)
  station_csv : option (list string);      (* given and existing: its lines *)
  arg_start : option Q;
  arg_end : option Q;
  time_step : Q;
  max_frames : Z;
  max_mem_mb : Z;
  dry_run : bool;
  animation : result unit                  (* how [make_animation] ends *)
}.

Definition is_segy_name (fn : string) : bool :=
  Str.endswith (Str.lower fn) ".sgy" || Str.endswith (Str.lower fn) ".segy".

(** The [# try to infer from SAC headers] loop body. *)
Definition sac_step (positions : Positions) (tr : Trace) : Positions :=
  match sac (stats tr) with
  | Some hdr =>
      match stla hdr, stlo hdr with
      | Some la, Some lo =>
          let key := stream_station_key tr in
          match positions !! key with
          | None => <[key := (la, lo)]> positions
          | Some _ => positions
          end
      | _, _ => positions
      end
  | None => positions
  end.

(** [min] and [max] of a non-empty list of times, as Python picks them. *)
Definition py_min_list (x : Q) (l : list Q) : Q :=
  foldl (fun m y => if Qltb y m then y else m) x l.
Definition py_max_list (x : Q) (l : list Q) : Q :=
  foldl (fun m y => if Qltb m y then y else m) x l.

(** The estimates of the safety checks. *)
Definition n_frames_of (start stop step : Q) : result Z :=
  let duration := stop - start in
  if Qltb 0 duration
  then if Qeq_bool step 0 then Raise ZeroDivisionError
       else Ok (Qceiling (duration / step))
  else Ok 0%Z.

Definition n_stations_of (positions : Positions) : Z :=
  Z.max 1 (Z.of_nat (size positions)).

Definition est_bytes_of (n_frames n_stations : Z) : Z := (n_frames * n_stations * 4)%Z.
Definition est_mb_of (est_bytes : Z) : Q := inject_Z est_bytes / (1024 * 1024).
Definition safety_multiplier : Q := 3 # 2.

Section Main.

Context (float_of_string : string → option Q).
Context (astype_float32 : Q → Q).

(** The body of [for fn in files] on the pair [(st, positions)]. *)
Definition read_file (env : Env) (acc : Stream * Positions) (f : WaveformFile)
    : Run (Stream * Positions) :=
  let with_obspy : Run (Stream * Positions) :=
    match obspy_read f with
    | Ok s => mret (fst acc ++ s, snd acc)
    | Raise _ => print (WarnRead (path f));; mret acc
    end in
  if is_segy_name (path f) && HAS_SEGYIO env then
    match segy_to_stream (HAS_SEGYIO env) (segy_content f) with
    | Ok (s2, pos2) => mret (fst acc ++ s2, pos2 ∪ snd acc)
    | Raise _ => print (WarnSegy (path f));; with_obspy
    end
  else with_obspy.

Fixpoint read_files (env : Env) (fs : list WaveformFile)
    (acc : Stream * Positions) : Run (Stream * Positions) :=
  match fs with
  | [] => mret acc
  | f :: rest => acc' ← read_file env acc f; read_files env rest acc'
  end.

(** The station positions after the inventory, the table or the SAC
    headers have been consulted. *)
Definition resolve_positions (env : Env) (st : Stream) (positions : Positions)
    : result Positions :=
  match station_xml env with
  | Some inv =>
      i ← inv; Ok (inventory_to_positions i ∪ positions)
  | None =>
      match station_csv env with
      | Some lines =>
          d ← load_station_csv float_of_string lines; Ok (d ∪ positions)
      | None => Ok (foldl sac_step positions st)
      end
  end.

(** Lines 311-346 of [main]: the stream and the station positions. *)
Definition station_positions (env : Env) : Run (Stream * Positions) :=
  '(st, positions) ← read_files env (files env) ([], ∅);
  positions ← propagate (resolve_positions env st positions);
  mret (st, positions).

(** Lines 304-361 of [main]: discovery, positions and the time window. *)
Definition setup (env : Env) : Run (Stream * Positions * Q * Q) :=
  when (bool_decide (files env = []))
       (print NoWaveformFiles;; sys_exit 1);;
  print (FoundFiles (length (files env)));;
  '(st, positions) ← station_positions env;
  when (bool_decide (size positions = 0%nat))
       (print NoPositions;; sys_exit 1);;
  start ← match arg_start env, st with
          | Some t, _ => mret t
          | None, [] => raise ValueError
          | None, tr :: rest =>
              mret (py_min_list (starttime (stats tr))
                                (map (fun tr => starttime (stats tr)) rest))
          end;
  stop ← match arg_end env, st with
         | Some t, _ => mret t
         | None, [] => raise ValueError
         | None, tr :: rest => mret (py_max_list (endtime tr) (map endtime rest))
         end;
  mret (st, positions, start, stop).

(** Lines 363-391 of [main]: the safety checks and the dry run. *)
Definition safety_checks (env : Env) (positions : Positions) (start stop : Q)
    : Run unit :=
  n_frames ← propagate (n_frames_of start stop (time_step env));
  let n_stations := n_stations_of positions in
  let est_mb := est_mb_of (est_bytes_of n_frames n_stations) in
  when (n_frames <=? 0)%Z (print NoFrames;; sys_exit 1);;
  when (max_frames env <? n_frames)%Z
       (print (TooManyFrames n_frames (max_frames env));; sys_exit 1);;
  when (Qltb (inject_Z (max_mem_mb env)) (est_mb * safety_multiplier))
       (print (TooMuchMemory (max_mem_mb env));; sys_exit 1);;
  print (Generating n_frames n_stations);;
  when (dry_run env) (print DryRun;; sys_exit 0).

(** Lines 393-413 of [main]: preparation and rendering. *)
Definition render (env : Env) (st : Stream) (positions : Positions)
    (start stop : Q) : Run unit :=
  emit CallPrepare;;
  '(station_traces, times, meta) ←
    match prepare_meta astype_float32 st positions start stop (time_step env) with
    | Ok r => mret r
    | Raise MemoryError => print PrepareMemoryError;; sys_exit 1
    | Raise e => raise e
    end;
  when (bool_decide (station_keys meta = []))
       (print NoStationTraces;; sys_exit 1);;
  print (Creating (length times));;
  emit CallAnimation;;
  match animation env with
  | Ok _ => mret tt
  | Raise MemoryError => print AnimationMemoryError;; sys_exit 1
  | Raise _ => print AnimationError;; sys_exit 1
  end;;
  print Done.

Definition main (env : Env) : Run unit :=
  '(st, positions, start, stop) ← setup env;
  safety_checks env positions start stop;;
  render env st positions start stop.

(** A whole run: the log and how the process ended. *)
Definition run_main (env : Env) : list Event * Stop :=
  match main env [] with
  | (log, Next _) => (log, Returned)
  | (log, Halt s) => (log, s)
  end.

End Main.

(** ** Discovering the files *)

(** The patterns of [find_waveforms], in the order they are globbed. *)
Definition patterns : list string :=
  ["**/*.mseed"; "**/*.msd"; "**/*.sac"; "**/*.sgy"; "**/*.seg-y"; "**/*.segy"].

(** [sorted(files)] on a list of strings: ascending in the order of the
    characters' codes. *)
Fixpoint insert_sorted (x : string) (l : list string) : list string :=
  match l with
  | [] => [x]
  | y :: rest => if String.leb x y then x :: l else y :: insert_sorted x rest
  end.

Definition sorted (l : list string) : list string :=
  foldr insert_sorted [] l.

Section Discovery.

(** [glob.glob(os.path.join(data_dir, p), recursive=True)] for the pattern
    [p]: what the file system holds. *)
Context (glob : string → list string).

Definition find_waveforms : list string :=
  sorted (foldl (fun files p => files ++ glob p) [] patterns).

End Discovery.

(** ** The map window and the reference series of [make_animation] *)

(** [min(vals)] and [max(vals)]; an empty list is a [ValueError]. *)
Definition py_min (vals : list Q) : result Q :=
  match vals with
  | [] => Raise ValueError
  | x :: rest => Ok (py_min_list x rest)
  end.

Definition py_max_of (vals : list Q) : result Q :=
  match vals with
  | [] => Raise ValueError
  | x :: rest => Ok (py_max_list x rest)
  end.

(** The lists [lats] and [lons]: [positions[k]] for every station key. *)
Definition station_coordinates (positions : Positions) (keys : list string)
    : result (list Q * list Q) :=
  lats ← mapM (fun k => match positions !! k with
                        | Some p => Ok (fst p)
                        | None => Raise KeyError
                        end) keys;
  lons ← mapM (fun k => match positions !! k with
                        | Some p => Ok (snd p)
                        | None => Raise KeyError
                        end) keys;
  Ok (lats, lons).

(** [max(vals) - min(vals) if len(vals) > 1 else 10]. *)
Definition span (vals : list Q) : Q :=
  match vals with
  | x :: (_ :: _) as rest => py_max_list x rest - py_min_list x rest
  | _ => 10
  end.

Record MapWindow : Type := mkWindow {
  llcrnrlat : Q; urcrnrlat : Q; llcrnrlon : Q; urcrnrlon : Q
}.

(** The corners handed to [Basemap]; [has_basemap] is [Basemap is not
    None]. *)
Definition map_window (has_basemap : bool) (lats lons : list Q)
    : result MapWindow :=
  let lat_span := span lats in
  let lon_span := span lons in
  if negb has_basemap then Raise RuntimeError
  else
    lat_lo ← py_min lats; lat_hi ← py_max_of lats;
    lon_lo ← py_min lons; lon_hi ← py_max_of lons;
    Ok {| llcrnrlat := lat_lo - lat_span * (1 # 10);
          urcrnrlat := lat_hi + lat_span * (1 # 10);
          llcrnrlon := lon_lo - lon_span * (1 # 10);
          urcrnrlon := lon_hi + lon_span * (1 # 10) |}.

(** The list [ref_amps]: the normalised series of the first station. *)
Definition ref_amps (station_traces : PyDict.t Trace) (meta : Meta)
    (times : list Q) : result (list Q) :=
  match station_keys meta with
  | [] => Raise RuntimeError
  | ref_key :: _ =>
      ref_tr ← match PyDict.get ref_key station_traces with
               | Some tr => Ok tr
               | None => Raise KeyError
               end;
      let ref_max := PyDict.get_default ref_key 1 (station_max meta) in
      mapM (fun t => s ← sample_tr_at_time ref_tr t; py_div s ref_max) times
  end.

(** ** Reference definitions for the statements *)

(** The in-range fraction of a non-empty set of coordinate pairs. *)
Definition score (gx_vals gy_vals : list Q) (sc : Q) : Q :=
  let ok := ok_array gx_vals gy_vals sc in
  inject_Z (Z.of_nat (length (filter (fun b => b = true) ok)))
  / inject_Z (Z.of_nat (length ok)).

(** The choice as the specification words it: the first, hence largest,
    candidate whose in-range fraction reaches 0.95. *)
Definition spec_largest_confident (gx_vals gy_vals : list Q) : option Q :=
  List.find (fun sc => Qleb (95 # 100) (score gx_vals gy_vals sc)) candidates.

(** What [_pick_segy_scale] guarantees of its answer. *)
Definition first_best (gx_vals gy_vals : list Q) (r : option Q) : Prop :=
  match r with
  | Some sc =>
      ∃ pre post,
        candidates = pre ++ sc :: post
        ∧ 95 # 100 <= score gx_vals gy_vals sc
        ∧ (∀ c, c ∈ pre → score gx_vals gy_vals c < score gx_vals gy_vals sc)
        ∧ (∀ c, c ∈ post → score gx_vals gy_vals c <= score gx_vals gy_vals sc)
  | None => ∀ c, c ∈ candidates → score gx_vals gy_vals c < 95 # 100
  end.

(** Thirty-nine coordinate pairs that are in range at every candidate
    scale and one that is in range only from 1e-4 on. *)
Definition skewed_gx : list Q := replicate 39 1000 ++ [1000000].
Definition skewed_gy : list Q := replicate 39 1000 ++ [0].

(** The SAC coordinates of the first trace of the stream that has the
    key and both header words. *)
Definition sac_coordinates (tr : Trace) : option (Q * Q) :=
  hdr ← sac (stats tr); la ← stla hdr; lo ← stlo hdr; Some (la, lo).

Fixpoint sac_first (st : Stream) (key : string) : option (Q * Q) :=
  match st with
  | [] => None
  | tr :: rest =>
      match sac_coordinates tr with
      | Some p => if String.eqb (stream_station_key tr) key then Some p
                  else sac_first rest key
      | None => sac_first rest key
      end
  end.

(** A reader of plain decimal literals ([-12.5], [45]), standing in for
    Python's [float] on the rows of the examples below. *)
Fixpoint digits_value (s : string) (acc : N) : option N :=
  match s with
  | EmptyString => Some acc
  | String a rest =>
      let n := nat_of_ascii a in
      if ((48 <=? n) && (n <=? 57))%nat
      then digits_value rest (acc * 10 + N.of_nat (n - 48))%N
      else None
  end.

Definition unsigned_decimal (s : string) : option Q :=
  match Str.split "." s with
  | [int_part] =>
      if String.eqb int_part "" then None
      else n ← digits_value int_part 0; Some (inject_Z (Z.of_N n))
  | [int_part; frac_part] =>
      if String.eqb (int_part +:+ frac_part) "" then None
      else
        n ← digits_value int_part 0;
        f ← digits_value frac_part 0;
        Some (inject_Z (Z.of_N n)
              + inject_Z (Z.of_N f) / inject_Z (10 ^ Z.of_nat (String.length frac_part)))
  | _ => None
  end.

Definition decimal_literal (s : string) : option Q :=
  match s with
  | String "-" rest => Qopp <$> unsigned_decimal rest
  | _ => unsigned_decimal s
  end.

(** A run whose only file is a SEG-Y file with one record, and an inventory
    that lists the same station key at another place. *)
Definition one_record_segy : SegyFile :=
  {| Interval := Some 4000%Z;
     records := [ {| GroupX := 1000; GroupY := 2000; TraceSequenceLine := Some 1%Z;
                     header_start := 0; samples := [1; 2; 3] |} ] |}.

Definition env_segy_then_xml : Env :=
  {| HAS_SEGYIO := true;
     files := [ {| path := "line1.sgy"; segy_content := Ok one_record_segy;
                   obspy_read := Raise OtherError |} ];
     station_xml :=
       Some (Ok [ {| net_code := "SGY";
                     stations := [ {| sta_code := "SGY.00001";
                                      latitude := 50; longitude := 60 |} ] |} ]);
     station_csv := None;
     arg_start := Some 0; arg_end := Some 10; time_step := 1;
     max_frames := 10000; max_mem_mb := 4096; dry_run := false;
     animation := Ok tt |}.

(** A run with one SAC trace that carries its coordinates and a station
    table that lists another station only. *)
Definition sac_trace_abc : Trace :=
  {| stats := {| network := Some "XX"; station := "ABC"; starttime := 0;
                 sampling_rate := 1;
                 sac := Some {| stla := Some 45; stlo := Some (-123) |} |};
     data := [1; 2; 3] |}.

Definition env_sac_with_csv : Env :=
  {| HAS_SEGYIO := false;
     files := [ {| path := "abc.sac"; segy_content := Raise OtherError;
                   obspy_read := Ok [sac_trace_abc] |} ];
     station_xml := None;
     station_csv := Some ["network,station,latitude,longitude"; "XX,DEF,45.2,-123.5"];
     arg_start := Some 0; arg_end := Some 10; time_step := 1;
     max_frames := 10000; max_mem_mb := 4096; dry_run := false;
     animation := Ok tt |}.

(** The positions with which [station_positions] ends, if it does. *)
Definition final_positions (float_of_string : string → option Q) (env : Env)
    : option Positions :=
  match station_positions float_of_string env [] with
  | (_, Next (_, positions)) => Some positions
  | (_, Halt _) => None
  end.

Definition is_print (e : Event) : bool :=
  match e with
  | Printed _ => true
  | _ => false
  end.

(** The memory estimate the specification describes, in MiB: frames times
    stations times four bytes, times the safety multiplier 1.5. *)
Definition spec_scaled_mib (n_frames : Z) (n_stations : nat) : Q :=
  inject_Z (n_frames * Z.of_nat n_stations * 4) / (1024 * 1024) * (3 # 2).

(** Scenario 4: ten minutes at one frame per second against a ceiling of
    100 frames. *)
Definition trace_xx_abc : Trace :=
  {| stats := {| network := Some "XX"; station := "ABC";
                 starttime := 946684800; sampling_rate := 1; sac := None |};
     data := replicate 8 5 |}.

Definition env_scenario4 : Env :=
  {| HAS_SEGYIO := false;
     files := [ {| path := "abc.mseed"; segy_content := Raise OtherError;
                   obspy_read := Ok [trace_xx_abc] |} ];
     station_xml := None;
     station_csv := Some ["network,station,latitude,longitude"; "XX,ABC,45.1,-123.4"];
     arg_start := Some 946684800; arg_end := Some 946685400; time_step := 1;
     max_frames := 100; max_mem_mb := 4096; dry_run := false;
     animation := Ok tt |}.

(** A run that the program refuses: exit status 1, and neither
    [prepare_meta] nor [make_animation] was entered. *)
Definition rejected (out : list Event * Stop) : Prop :=
  exit_status (snd out) = 1%Z
  ∧ (CallPrepare ∉ fst out) ∧ (CallAnimation ∉ fst out).

(** A one-sample trace starting (and ending) at time 0, one sample per
    second. *)
Definition single_sample_trace : Trace :=
  {| stats := {| network := Some "XX"; station := "ABC"; starttime := 0;
                 sampling_rate := 1; sac := None |};
     data := [5] |}.

(** What [prepare_meta] stores for one trace, if it keeps it: the trace
    has a position, the trim succeeds and leaves samples; stored is the
    trimmed trace in single precision. *)
Definition prepared (astype_float32 : Q → Q) (positions : Positions)
    (start stop : Q) (tr : Trace) : option Trace :=
  match positions !! stream_station_key tr with
  | None => None
  | Some _ =>
      match ObsPy.trim tr start stop with
      | Raise _ => None
      | Ok tr2 =>
          match data tr2 with
          | [] => None
          | _ :: _ => Some (with_data tr2 (map astype_float32 (data tr2)))
          end
      end
  end.

(** The stored trace of the last kept trace with the key. *)
Definition last_prepared (astype_float32 : Q → Q) (positions : Positions)
    (start stop : Q) (st : Stream) (key : string) : option Trace :=
  foldl (fun found tr =>
           match prepared astype_float32 positions start stop tr with
           | Some tr3 =>
               if String.eqb (stream_station_key tr) key then Some tr3 else found
           | None => found
           end)
        None st.

Definition peak (tr3 : Trace) : Q := py_max 1 (max_abs (data tr3)).

(** A station that records nothing but zeros inside the window. *)
Definition silent_trace : Trace :=
  {| stats := {| network := Some "XX"; station := "DEF"; starttime := 2;
                 sampling_rate := 1; sac := None |};
     data := [0; 0; 0] |}.

Definition silent_positions : Positions := {[ "XX.DEF" := (45.2, -123.5) ]}.

(** The comma-separated fields of a row, each stripped. *)
Definition fields (line : string) : list string :=
  map Str.strip (Str.split "," (Str.strip line)).

(** A row the loader accepts for [key] with the position [pos]: four
    fields [network,station,latitude,longitude] or three fields
    [station,latitude,longitude], the last two readable as numbers. *)
Definition accepted (float_of_string : string → option Q)
    (line key : string) (pos : Q * Q) : Prop :=
  (∃ net sta lat lon,
      fields line = [net; sta; lat; lon] ∧ key = net +:+ "." +:+ sta
      ∧ float_of_string lat = Some pos.1 ∧ float_of_string lon = Some pos.2)
  ∨ (∃ sta lat lon,
      fields line = [sta; lat; lon] ∧ key = sta
      ∧ float_of_string lat = Some pos.1 ∧ float_of_string lon = Some pos.2).

(** A row the loader passes over: blank, or neither three nor four
    fields. *)
Definition skipped (line : string) : Prop :=
  Str.strip line = ""
  ∨ (length (fields line) ≠ 3%nat ∧ length (fields line) ≠ 4%nat).

(** The table of Scenario 1, with a blank row and a row of two fields. *)
Definition scenario1_csv : list string :=
  [ "network,station,latitude,longitude";
    "XX,ABC,45.1,-123.4";
    "";
    "XX,DEF,45.2,-123.5";
    "comment,ignored";
    "GHI, 45.3, -123.6" ].

(** The header-derived coordinate arrays of a SEG-Y file. *)
Definition segy_gx (f : SegyFile) : list Q := map (fun r => inject_Z (GroupX r)) (records f).
Definition segy_gy (f : SegyFile) : list Q := map (fun r => inject_Z (GroupY r)) (records f).

(** The station key of record [i]. *)
Definition segy_key (i : nat) (r : SegyRecord) : string :=
  "SGY" +:+ "." +:+ segy_name i r.

(** A file whose coordinate words are out of range at every candidate
    scale. *)
Definition far_away_segy : SegyFile :=
  {| Interval := Some 4000%Z;
     records := [ {| GroupX := 1000000000000; GroupY := 2000000000000;
                     TraceSequenceLine := Some 1%Z; header_start := 0;
                     samples := [1; 2] |};
                  {| GroupX := 3000000000000; GroupY := 4000000000000;
                     TraceSequenceLine := None; header_start := 0;
                     samples := [3; 4] |} ] |}.

(** A computation that adds nothing but printed lines to the log. *)
Definition only_prints {A} (m : Run A) : Prop :=
  ∀ log0 log r, m log0 = (log, r) → Forall (fun e => is_print e = true) log0 →
                Forall (fun e => is_print e = true) log.

(** The last row of [rows] accepted for [key] carries [pos]. *)
Definition last_accepted (float_of_string : string → option Q)
    (rows : list string) (key : string) (pos : Q * Q) : Prop :=
  ∃ pre line post,
    rows = pre ++ line :: post ∧ accepted float_of_string line key pos
    ∧ ∀ line' pos', line' ∈ post → ¬ accepted float_of_string line' key pos'.

(** A computation that, when it stops the run, stops it with exit
    status 1. *)
Definition stops_with_one {A} (m : Run A) : Prop :=
  ∀ log0 log s, m log0 = (log, Halt s) → exit_status s = 1%Z.

(** The two warnings of the read loop. *)
Definition is_warning (fs : list WaveformFile) (e : Event) : Prop :=
  ∃ f, f ∈ fs ∧ (e = Printed (WarnSegy (path f)) ∨ e = Printed (WarnRead (path f))).

(** A run in which every file is unreadable, a station table is given and
    [--start] is left out. *)
Definition env_unreadable : Env :=
  {| HAS_SEGYIO := false;
     files := [ {| path := "broken.mseed"; segy_content := Raise OtherError;
                   obspy_read := Raise OtherError |} ];
     station_xml := None;
     station_csv := Some ["network,station,latitude,longitude"; "XX,ABC,45.1,-123.4"];
     arg_start := None; arg_end := Some 10; time_step := 1;
     max_frames := 10000; max_mem_mb := 4096; dry_run := false;
     animation := Ok tt |}.

(** Scenario 4 again, as a dry run within a ceiling of 1000 frames. *)
Definition env_dry_run : Env :=
  {| HAS_SEGYIO := false;
     files := [ {| path := "abc.mseed"; segy_content := Raise OtherError;
                   obspy_read := Ok [trace_xx_abc] |} ];
     station_xml := None;
     station_csv := Some ["network,station,latitude,longitude"; "XX,ABC,45.1,-123.4"];
     arg_start := None; arg_end := None; time_step := 1;
     max_frames := 1000; max_mem_mb := 4096; dry_run := true;
     animation := Ok tt |}.

(** The stations of an inventory in the order they are listed, each with
    its key and position. *)
Definition inventory_entries (inv : Inventory) : list (string * (Q * Q)) :=
  flat_map (fun net =>
              map (fun sta => (net_code net +:+ "." +:+ sta_code sta,
                               (latitude sta, longitude sta)))
                  (stations net))
           inv.

(** A position strictly inside the longitude and latitude ranges. *)
Definition valid_position (p : Q * Q) : bool :=
  (Qltb (-180) (snd p) && Qltb (snd p) 180) && (Qltb (-90) (fst p) && Qltb (fst p) 90).

(** Reading back what [{n:05d}] writes. *)
Definition read_05d (s : string) : option Z :=
  match s with
  | String "-" rest => (fun n => (- Z.of_N n)%Z) <$> digits_value rest 0
  | _ => Z.of_N <$> digits_value s 0
  end.

(** A row of three or four fields one of whose numbers [float] refuses. *)
Definition unreadable_number (float_of_string : string → option Q)
    (line : string) : Prop :=
  (∃ sta lat lon,
      fields line = [sta; lat; lon]
      ∧ (float_of_string lat = None ∨ float_of_string lon = None))
  ∨ (∃ net sta lat lon,
      fields line = [net; sta; lat; lon]
      ∧ (float_of_string lat = None ∨ float_of_string lon = None)).

(** The trace numbers of the records of a file, in order. *)
Definition segy_trace_numbers (f : SegyFile) : list Z :=
  imap segy_trace_num (records f).

(** Scenario 1: three stations of the table of [scenario1_csv], each with
    a trace that covers the window. *)
Definition scenario1_stream : Stream :=
  map (fun name =>
         {| stats := {| network := Some "XX"; station := name; starttime := 0;
                        sampling_rate := 1; sac := None |};
            data := replicate 11 3 |})
      ["ABC"; "DEF"; "GHI"].

Definition scenario1_positions : Positions :=
  {[ "XX.ABC" := (45.1, -123.4); "XX.DEF" := (45.2, -123.5);
     "XX.GHI" := (45.3, -123.6) ]}.

(** The order [sorted] arranges file names in. *)
Definition name_le (a b : string) : Prop := String.leb a b = true.

(** A station table whose second row has a latitude that is not a
    number. *)
Definition csv_with_bad_number : list string :=
  [ "network,station,latitude,longitude";
    "XX,ABC,45.1,-123.4";
    "XX,DEF,north,-123.5" ].

(** * Properties *)

(** ** Comparisons *)

Lemma Qltb_lt (x y : Q) : Qltb x y = true ↔ x < y.
Proof.
  unfold Qltb. rewrite negb_true_iff. split.
  - intros H. apply Qnot_le_lt. intros Hle.
    apply Qle_bool_iff in Hle. congruence.
  - intros H. destruct (Qle_bool y x) eqn:E; [|done].
    apply Qle_bool_iff in E. exfalso. eapply Qlt_not_le; eauto.
Qed.

Lemma Qltb_ge (x y : Q) : Qltb x y = false ↔ y <= x.
Proof.
  unfold Qltb. rewrite negb_false_iff. apply Qle_bool_iff.
Qed.

Lemma Qleb_le (x y : Q) : Qleb x y = true ↔ x <= y.
Proof. apply Qle_bool_iff. Qed.

Lemma Qleb_gt (x y : Q) : Qleb x y = false ↔ y < x.
Proof.
  unfold Qleb. split.
  - intros H. apply Qnot_le_lt. intros Hle.
    apply Qle_bool_iff in Hle. congruence.
  - intros H. destruct (Qle_bool x y) eqn:E; [|done].
    apply Qle_bool_iff in E. exfalso. eapply Qlt_not_le; eauto.
Qed.

(** ** The scale heuristic *)

Lemma ok_array_length gx gy sc :
  length (ok_array gx gy sc) = Nat.min (length gx) (length gy).
Proof. unfold ok_array. apply length_zip_with. Qed.

Lemma score_of_nonempty gx gy sc :
  gx ≠ [] → gy ≠ [] → score_of gx gy sc = Ok (score gx gy sc).
Proof.
  intros Hx Hy. unfold score_of, score.
  pose proof (ok_array_length gx gy sc) as Hl.
  destruct gx; [done|]. destruct gy; [done|].
  destruct (length (ok_array (q :: gx) (q0 :: gy) sc)) eqn:E; [|done].
  simpl in Hl. lia.
Qed.

Lemma score_nonneg gx gy sc : 0 <= score gx gy sc.
Proof.
  unfold score.
  set (n := length (ok_array gx gy sc)).
  set (k := length _).
  destruct n as [|n].
  - simpl. unfold Qdiv, Qinv. simpl. rewrite Qmult_0_r. apply Qle_refl.
  - apply Qle_shift_div_l.
    + unfold Qlt. simpl. lia.
    + rewrite Qmult_0_l. unfold Qle. simpl. lia.
Qed.

Lemma pick_step_nonempty gx gy st sc :
  gx ≠ [] → gy ≠ [] →
  pick_step gx gy st sc
  = Ok (if Qltb (snd st) (score gx gy sc) then (Some sc, score gx gy sc) else st).
Proof.
  intros Hx Hy. unfold pick_step.
  rewrite score_of_nonempty by done. simpl.
  by destruct (Qltb _ _).
Qed.

(** The loop keeps the first candidate of the highest score above the
    score it starts with. *)
Lemma pick_loop_inv gx gy cands b bs :
  gx ≠ [] → gy ≠ [] →
  ∃ b' bs', pick_loop gx gy cands (b, bs) = Ok (b', bs')
    ∧ ((b' = b ∧ bs' = bs ∧ ∀ c, c ∈ cands → score gx gy c <= bs)
       ∨ (∃ pre sc post, cands = pre ++ sc :: post
            ∧ b' = Some sc ∧ bs' = score gx gy sc ∧ bs < score gx gy sc
            ∧ (∀ c, c ∈ pre → score gx gy c < score gx gy sc)
            ∧ (∀ c, c ∈ post → score gx gy c <= score gx gy sc))).
Proof.
  intros Hx Hy. revert b bs.
  induction cands as [|c rest IH]; intros b bs.
  - exists b, bs. split; [done|]. left. repeat split. intros c Hc. inversion Hc.
  - cbn [pick_loop]. rewrite pick_step_nonempty by done. cbn [mbind result_bind snd].
    destruct (Qltb bs (score gx gy c)) eqn:E.
    + apply Qltb_lt in E.
      destruct (IH (Some c) (score gx gy c)) as (b' & bs' & Hrun & Hcase).
      exists b', bs'. split; [done|]. right.
      destruct Hcase as [(-> & -> & Hall) | (pre & sc & post & -> & -> & -> & Hlt & Hpre & Hpost)].
      * exists [], c, rest. repeat split; try done. intros c' Hc'. inversion Hc'.
      * exists (c :: pre), sc, post. repeat split; try done.
        -- eapply Qlt_trans; eauto.
        -- intros c' Hc'. apply elem_of_cons in Hc' as [-> | Hc']; auto.
    + apply Qltb_ge in E.
      destruct (IH b bs) as (b' & bs' & Hrun & Hcase).
      exists b', bs'. split; [done|].
      destruct Hcase as [(-> & -> & Hall) | (pre & sc & post & -> & -> & -> & Hlt & Hpre & Hpost)].
      * left. repeat split. intros c' Hc'.
        apply elem_of_cons in Hc' as [-> | Hc']; auto.
      * right. exists (c :: pre), sc, post. repeat split; try done.
        intros c' Hc'. apply elem_of_cons in Hc' as [-> | Hc']; auto.
        eapply Qle_lt_trans; eauto.
Qed.

Lemma pick_result (gx_vals gy_vals : list Q) :
  gx_vals ≠ [] → gy_vals ≠ [] →
  ∃ r, _pick_segy_scale gx_vals gy_vals = Ok r ∧ first_best gx_vals gy_vals r.
Proof.
  intros Hx Hy. unfold _pick_segy_scale.
  destruct (pick_loop_inv gx_vals gy_vals candidates None (-1) Hx Hy)
    as (b' & bs' & -> & Hcase).
  cbn [mbind result_bind fst snd].
  destruct Hcase as [(_ & _ & Hall) | (pre & sc & post & Hc & -> & -> & _ & Hpre & Hpost)].
  - exfalso. pose proof (Hall (1 # 1000)) as H.
    pose proof (score_nonneg gx_vals gy_vals (1 # 1000)) as H0.
    assert (score gx_vals gy_vals (1 # 1000) <= -1) as H1
      by (apply H; unfold candidates; apply elem_of_cons; by left).
    lra.
  - destruct (Qleb (95 # 100) (score gx_vals gy_vals sc)) eqn:E.
    + exists (Some sc). split; [done|]. exists pre, post.
      apply Qleb_le in E. done.
    + exists None. split; [done|]. apply Qleb_gt in E.
      intros c Hin. rewrite Hc in Hin.
      apply elem_of_app in Hin as [Hin | Hin].
      * eapply Qlt_trans; [apply Hpre|]; done.
      * apply elem_of_cons in Hin as [-> | Hin]; [done|].
        eapply Qle_lt_trans; [apply Hpost|]; done.
Qed.

(** C1 (as amended): on a non-empty set of coordinate pairs,
    [_pick_segy_scale] returns, and what it returns is the candidate of
    the highest in-range fraction, the first one scanned among equals,
    provided that fraction is at least 0.95; it returns [None] exactly
    when every candidate stays below 0.95. *)
Theorem pick_segy_scale_first_best (gx_vals gy_vals : list Q) :
  gx_vals ≠ [] → gy_vals ≠ [] →
  ∃ r, _pick_segy_scale gx_vals gy_vals = Ok r ∧ first_best gx_vals gy_vals r.
Proof. apply pick_result. Qed.

Lemma pick_segy_scale_first_best_witness :
  [1000; 2000] ≠ ([] : list Q) ∧ [500; 600] ≠ ([] : list Q)
  ∧ ∃ r, _pick_segy_scale [1000; 2000] [500; 600] = Ok r
         ∧ first_best [1000; 2000] [500; 600] r.
Proof.
  split; [done|]. split; [done|].
  apply (pick_segy_scale_first_best [1000; 2000] [500; 600]); done.
Defined.

(** C1 (as stated) fails: with 39 of 40 pairs in range at 1e-3 and all 40
    at 1e-4, the largest candidate that reaches 0.95 is 1e-3, and
    [_pick_segy_scale] answers 1e-4. *)
Lemma pick_segy_scale_not_largest_confident :
  spec_largest_confident skewed_gx skewed_gy = Some (1 # 1000)
  ∧ _pick_segy_scale skewed_gx skewed_gy = Ok (Some (1 # 10000))
  ∧ _pick_segy_scale skewed_gx skewed_gy
    ≠ Ok (spec_largest_confident skewed_gx skewed_gy).
Proof.
  split; [by vm_compute|]. split; [by vm_compute|].
  by vm_compute.
Qed.

(** ** Station positions *)

Lemma sac_step_lookup positions tr key :
  sac_step positions tr !! key
  = positions !! key
    ∪ (if String.eqb (stream_station_key tr) key then sac_coordinates tr else None).
Proof.
  unfold sac_step, sac_coordinates.
  destruct (sac (stats tr)) as [hdr|]; cbn [mbind option_bind];
    [|destruct (String.eqb _ _), (positions !! key); done].
  destruct (stla hdr) as [la|]; cbn [mbind option_bind];
    [|destruct (String.eqb _ _), (positions !! key); done].
  destruct (stlo hdr) as [lo|]; cbn [mbind option_bind];
    [|destruct (String.eqb _ _), (positions !! key); done].
  destruct (String.eqb_spec (stream_station_key tr) key) as [->|Hne].
  - destruct (positions !! key) eqn:E; [by rewrite E|].
    by rewrite lookup_insert_eq.
  - destruct (positions !! stream_station_key tr);
      [|rewrite lookup_insert_ne by done]; by destruct (positions !! key).
Qed.

Lemma sac_fold_lookup st positions key :
  foldl sac_step positions st !! key = positions !! key ∪ sac_first st key.
Proof.
  revert positions. induction st as [|tr rest IH]; intros positions.
  - simpl. by destruct (positions !! key).
  - cbn [foldl sac_first]. rewrite IH, sac_step_lookup.
    destruct (positions !! key), (sac_coordinates tr),
      (String.eqb _ _), (sac_first rest key); done.
Qed.

Section Positions.

Context (float_of_string : string → option Q).


End Positions.


(** ** The run monad *)

Lemma run_bind_next {A B} (m : Run A) (f : A → Run B) log log' a :
  m log = (log', Next a) → (m ≫= f) log = f a log'.
Proof. intros H. unfold mbind, run_bind. by rewrite H. Qed.

Lemma run_bind_halt {A B} (m : Run A) (f : A → Run B) log log' s :
  m log = (log', Halt s) → (m ≫= f) log = (log', Halt s).
Proof. intros H. unfold mbind, run_bind. by rewrite H. Qed.

Lemma run_bind_inv {A B} (m : Run A) (f : A → Run B) log log' b :
  (m ≫= f) log = (log', Next b) →
  ∃ a log1, m log = (log1, Next a) ∧ f a log1 = (log', Next b).
Proof.
  unfold mbind, run_bind. destruct (m log) as [log1 [a|s]]; [eauto|done].
Qed.

Lemma only_prints_ret {A} (a : A) : only_prints (mret a).
Proof. intros log0 log r [= <- _] H. done. Qed.

Lemma only_prints_bind {A B} (m : Run A) (f : A → Run B) :
  only_prints m → (∀ a, only_prints (f a)) → only_prints (m ≫= f).
Proof.
  intros Hm Hf log0 log r. unfold mbind, run_bind.
  destruct (m log0) as [log1 [a|s]] eqn:E; intros Hrun H0.
  - eapply Hf; eauto.
  - injection Hrun as <- _. eauto.
Qed.

Lemma only_prints_print (msg : Msg) : only_prints (print msg).
Proof.
  intros log0 log r [= <- _] H. apply Forall_app. split; [done|].
  by constructor.
Qed.

Lemma only_prints_sys_exit {A} code : only_prints (@sys_exit A code).
Proof. intros log0 log r [= <- _] H. done. Qed.

Lemma only_prints_raise {A} e : only_prints (@raise A e).
Proof. intros log0 log r [= <- _] H. done. Qed.

Lemma only_prints_propagate {A} (r : result A) : only_prints (propagate r).
Proof. destruct r; [apply only_prints_ret|apply only_prints_raise]. Qed.

Lemma only_prints_when b (m : Run unit) : only_prints m → only_prints (when b m).
Proof. destruct b; [done|]. intros _. apply only_prints_ret. Qed.

Create HintDb prints.
#[local] Hint Resolve only_prints_ret only_prints_bind only_prints_print
  only_prints_sys_exit only_prints_raise only_prints_propagate
  only_prints_when : prints.

Section Budget.

Context (float_of_string : string → option Q).
Context (astype_float32 : Q → Q).

Lemma only_prints_read_files env fs acc : only_prints (read_files env fs acc).
Proof.
  revert acc. induction fs as [|f rest IH]; intros acc; cbn [read_files].
  - auto with prints.
  - apply only_prints_bind; [|done].
    unfold read_file.
    destruct (obspy_read f) as [s|e];
      destruct (is_segy_name (path f) && HAS_SEGYIO env);
      try destruct (segy_to_stream (HAS_SEGYIO env) (segy_content f))
        as [[s2 pos2]|e2];
      auto 6 with prints.
Qed.

Lemma only_prints_setup env : only_prints (setup float_of_string env).
Proof.
  unfold setup, station_positions.
  repeat first
    [ apply only_prints_read_files
    | apply only_prints_bind; [|intros ?]
    | progress auto with prints
    | match goal with
      | |- only_prints (let '(_, _) := ?x in _) => destruct x
      | |- only_prints (match ?x with _ => _ end) => destruct x
      end ].
Qed.

Lemma setup_positions_nonempty env log0 log st positions start stop :
  setup float_of_string env log0 = (log, Next (st, positions, start, stop)) →
  size positions ≠ 0%nat.
Proof.
  unfold setup. intros H.
  apply run_bind_inv in H as (_ & log1 & _ & H).
  apply run_bind_inv in H as (_ & log2 & _ & H).
  apply run_bind_inv in H as ([st' positions'] & log3 & _ & H).
  apply run_bind_inv in H as (u & log4 & Hwhen & H).
  apply run_bind_inv in H as (start' & log5 & _ & H).
  apply run_bind_inv in H as (stop' & log6 & _ & H).
  unfold mret, run_ret in H. simplify_eq.
  unfold when in Hwhen. case_bool_decide; [|done].
  apply run_bind_inv in Hwhen as (v & ? & _ & Hx). done.
Qed.

Lemma safety_checks_reject env positions start stop n log :
  n_frames_of start stop (time_step env) = Ok n →
  (n <= 0)%Z ∨ (max_frames env < n)%Z
  ∨ inject_Z (max_mem_mb env)
    < est_mb_of (est_bytes_of n (n_stations_of positions)) * safety_multiplier →
  ∃ msg, safety_checks env positions start stop log
         = (log ++ [Printed msg], Halt (SysExit 1)).
Proof.
  intros Hn Hcase. unfold safety_checks. rewrite Hn.
  unfold propagate, when, print, emit, sys_exit, mbind, run_bind, mret, run_ret.
  destruct (Z.leb_spec n 0) as [Hle|Hgt]; [by eexists|].
  destruct (Z.ltb_spec (max_frames env) n) as [Hlt|Hge]; [by eexists|].
  destruct (Qltb _ _) eqn:E; [by eexists|].
  apply Qltb_ge in E.
  destruct Hcase as [?|[?|Hmem]]; [lia|lia|].
  exfalso. eapply Qlt_not_le; eauto.
Qed.

Lemma main_rejected env log st positions start stop msg :
  setup float_of_string env [] = (log, Next (st, positions, start, stop)) →
  safety_checks env positions start stop log
  = (log ++ [Printed msg], Halt (SysExit 1)) →
  rejected (run_main float_of_string astype_float32 env).
Proof.
  intros Hsetup Hchecks.
  assert (run_main float_of_string astype_float32 env
          = (log ++ [Printed msg], SysExit 1)) as ->.
  { unfold run_main, main. rewrite (run_bind_next _ _ _ _ _ Hsetup).
    cbn beta iota. by rewrite (run_bind_halt _ _ _ _ _ Hchecks). }
  assert (Forall (fun e => is_print e = true) (log ++ [Printed msg])) as Hall.
  { apply Forall_app. split; [|by constructor].
    eapply only_prints_setup; eauto. }
  rewrite Forall_forall in Hall.
  split; [done|]. split; intros Hin; by apply Hall in Hin.
Qed.

Lemma scaled_estimate n (positions : Positions) :
  size positions ≠ 0%nat →
  est_mb_of (est_bytes_of n (n_stations_of positions)) * safety_multiplier
  = spec_scaled_mib n (size positions).
Proof.
  intros Hsize. unfold est_mb_of, est_bytes_of, n_stations_of, spec_scaled_mib,
    safety_multiplier.
  by replace (Z.max 1 (Z.of_nat (size positions))) with (Z.of_nat (size positions))
    by lia.
Qed.


End Budget.


(** ** The time grid *)

Lemma Qceiling_pos (x : Q) : 0 < x → (0 < Qceiling x)%Z.
Proof.
  intros Hx. pose proof (Qle_ceiling x) as Hc.
  assert (inject_Z 0 < inject_Z (Qceiling x)) as H
    by (eapply Qlt_le_trans; [exact Hx|exact Hc]).
  by rewrite <- Zlt_Qlt in H.
Qed.

Lemma Qdiv_pos (x y : Q) : 0 < x → 0 < y → 0 < x / y.
Proof.
  intros Hx Hy. apply Qlt_shift_div_l; [done|]. by rewrite Qmult_0_l.
Qed.

Lemma arange_spec (start stop step : Q) :
  start < stop → 0 < step →
  ∃ grid, arange start stop step = Ok grid
    ∧ Z.of_nat (length grid) = Qceiling ((stop - start) / step)
    ∧ (∀ i t, grid !! i = Some t → t = start + inject_Z (Z.of_nat i) * step).
Proof.
  intros Hlt Hstep. unfold arange.
  destruct (Qeq_bool step 0) eqn:E.
  { apply Qeq_bool_iff in E. lra. }
  eexists. split; [done|]. split.
  - rewrite length_map, length_seq.
    assert (0 < Qceiling ((stop - start) / step))%Z
      by (apply Qceiling_pos, Qdiv_pos; lra).
    lia.
  - intros i t Hi. rewrite list_lookup_fmap in Hi.
    destruct (seq 0 _ !! i) as [j|] eqn:Ej; [|done].
    apply lookup_seq in Ej as [-> _]. simpl in Hi. by injection Hi as <-.
Qed.

Section TimeGrid.

Context (astype_float32 : Q → Q).


End TimeGrid.


(** ** Sampling *)

Lemma py_round_near (x : Q) :
  x - (1 # 2) <= inject_Z (py_round x) ∧ inject_Z (py_round x) <= x + (1 # 2).
Proof.
  unfold py_round.
  pose proof (Qfloor_le x) as Hlo. pose proof (Qlt_floor x) as Hhi.
  rewrite inject_Z_plus in Hhi. change (inject_Z 1) with 1 in Hhi.
  destruct (Qltb (x - inject_Z (Qfloor x)) (1 # 2)) eqn:E1.
  { apply Qltb_lt in E1. split; lra. }
  apply Qltb_ge in E1.
  destruct (Qltb (1 # 2) (x - inject_Z (Qfloor x))) eqn:E2.
  { rewrite inject_Z_plus. change (inject_Z 1) with 1. split; lra. }
  apply Qltb_ge in E2.
  destruct (Z.even (Qfloor x)).
  - split; lra.
  - rewrite inject_Z_plus. change (inject_Z 1) with 1. split; lra.
Qed.

Lemma py_round_below (x : Q) : x < - (1 # 2) → (py_round x < 0)%Z.
Proof.
  intros Hx. destruct (py_round_near x) as [_ Hhi].
  rewrite Zlt_Qlt. change (inject_Z 0) with 0. lra.
Qed.

Lemma py_round_above (x : Q) (n : Z) :
  inject_Z n - (1 # 2) < x → (n <= py_round x)%Z.
Proof.
  intros Hx. destruct (py_round_near x) as [Hlo _].
  assert (n - 1 < py_round x)%Z; [|lia].
  rewrite Zlt_Qlt. unfold Z.sub. rewrite inject_Z_plus, inject_Z_opp.
  change (inject_Z 1) with 1. lra.
Qed.

Lemma np_index_in_range (a : list Q) (idx : Z) :
  (0 <= idx < Z.of_nat (length a))%Z →
  ∃ v, a !! Z.to_nat idx = Some v ∧ np_index a idx = Ok v.
Proof.
  intros Hidx. unfold np_index.
  destruct (Z.ltb_spec idx 0) as [?|_]; [lia|].
  destruct (Z.leb_spec 0 idx) as [_|?]; [|lia].
  destruct (Z.ltb_spec idx (Z.of_nat (length a))) as [_|?]; [|lia].
  destruct (lookup_lt_is_Some_2 a (Z.to_nat idx)) as [v Hv]; [lia|].
  exists v. by rewrite Hv.
Qed.

Lemma sample_out_of_range (tr : Trace) (t : Q) :
  (sample_index tr t < 0 ∨ npts tr <= sample_index tr t)%Z →
  sample_tr_at_time tr t = Ok 0.
Proof.
  intros Hidx. unfold sample_tr_at_time.
  destruct (Z.ltb_spec (sample_index tr t) 0) as [?|?]; [done|].
  destruct (Z.leb_spec (npts tr) (sample_index tr t)) as [?|?]; [done|lia].
Qed.

Lemma sample_in_range (tr : Trace) (t : Q) :
  (0 <= sample_index tr t < npts tr)%Z →
  ∃ v, data tr !! Z.to_nat (sample_index tr t) = Some v
       ∧ sample_tr_at_time tr t = Ok v.
Proof.
  intros Hidx. unfold sample_tr_at_time.
  destruct (Z.ltb_spec (sample_index tr t) 0) as [?|_]; [lia|].
  destruct (Z.leb_spec (npts tr) (sample_index tr t)) as [?|_]; [lia|].
  cbn [orb]. apply np_index_in_range. unfold npts in Hidx. lia.
Qed.

Lemma scaled_offset (a b c sr : Q) :
  0 < sr → a < b - c * (1 / sr) → (a - b) * sr < - c.
Proof.
  intros Hsr H.
  assert ((a - b) * sr < (- (c * (1 / sr))) * sr) as H1.
  { apply Qmult_lt_compat_r; [done|]. lra. }
  assert ((- (c * (1 / sr))) * sr == - c) as H2 by (field; lra).
  by rewrite H2 in H1.
Qed.




(** ** Dictionaries *)

Lemma dict_get_set_eq {V} (k : string) (v : V) (d : PyDict.t V) :
  PyDict.get k (PyDict.set k v d) = Some v.
Proof.
  induction d as [|[k' v'] rest IH]; cbn [PyDict.set PyDict.get].
  - by rewrite String.eqb_refl.
  - destruct (String.eqb k k') eqn:E; cbn [PyDict.get].
    + by rewrite String.eqb_refl.
    + by rewrite E.
Qed.

Lemma dict_get_set_ne {V} (k k' : string) (v : V) (d : PyDict.t V) :
  k ≠ k' → PyDict.get k' (PyDict.set k v d) = PyDict.get k' d.
Proof.
  intros Hne. induction d as [|[k0 v0] rest IH]; cbn [PyDict.set PyDict.get].
  - destruct (String.eqb_spec k' k); [congruence|done].
  - destruct (String.eqb_spec k k0) as [->|Hk]; cbn [PyDict.get].
    + destruct (String.eqb_spec k' k0); [congruence|done].
    + by rewrite IH.
Qed.

Lemma dict_get_set {V} (k k' : string) (v : V) (d : PyDict.t V) :
  PyDict.get k' (PyDict.set k v d)
  = if String.eqb k k' then Some v else PyDict.get k' d.
Proof.
  destruct (String.eqb_spec k k') as [->|Hne].
  - apply dict_get_set_eq.
  - by apply dict_get_set_ne.
Qed.

Lemma dict_keys_get {V} (k : string) (d : PyDict.t V) :
  k ∈ PyDict.keys d ↔ is_Some (PyDict.get k d).
Proof.
  unfold PyDict.keys. induction d as [|[k' v'] rest IH]; cbn [map fst PyDict.get].
  - split; [intros H; inversion H|intros [? ?]; done].
  - rewrite elem_of_cons. destruct (String.eqb_spec k k') as [->|Hne].
    + split; [eauto|by left].
    + rewrite <- IH. split; [intros [?|?]; done|by right].
Qed.

(** ** The preparation loop *)

Section Preparation.

Context (astype_float32 : Q → Q).
Context (positions : Positions) (start stop : Q).

#[local] Abbreviation step := (prepare_step astype_float32 positions start stop).
#[local] Abbreviation kept := (prepared astype_float32 positions start stop).
#[local] Abbreviation found_step key :=
  (fun found tr =>
     match kept tr with
     | Some tr3 => if String.eqb (stream_station_key tr) key then Some tr3 else found
     | None => found
     end).

Lemma prepare_step_prepared acc tr :
  step acc tr
  = match kept tr with
    | Some tr3 =>
        (PyDict.set (stream_station_key tr) tr3 (fst acc),
         PyDict.set (stream_station_key tr) (peak tr3) (snd acc))
    | None => acc
    end.
Proof.
  unfold prepare_step, prepared.
  destruct (positions !! stream_station_key tr); [|done].
  destruct (ObsPy.trim tr start stop) as [tr2|e]; [|done].
  by destruct (data tr2).
Qed.

Lemma prepare_fold_traces st acc key :
  PyDict.get key (fst (foldl step acc st))
  = foldl (found_step key) (PyDict.get key (fst acc)) st.
Proof.
  revert acc. induction st as [|tr rest IH]; intros acc; [done|].
  cbn [foldl]. rewrite IH, prepare_step_prepared. f_equal.
  destruct (kept tr) as [tr3|]; [|done].
  cbn [fst]. by rewrite dict_get_set.
Qed.

Lemma prepare_fold_max st acc :
  (∀ key, PyDict.get key (snd acc) = peak <$> PyDict.get key (fst acc)) →
  ∀ key, PyDict.get key (snd (foldl step acc st))
         = peak <$> PyDict.get key (fst (foldl step acc st)).
Proof.
  revert acc. induction st as [|tr rest IH]; intros acc Hacc; [done|].
  cbn [foldl]. apply IH. intros key. rewrite prepare_step_prepared.
  destruct (kept tr) as [tr3|]; [|done].
  cbn [fst snd]. rewrite !dict_get_set.
  by destruct (String.eqb _ _).
Qed.

Lemma prepare_loop_traces st key :
  PyDict.get key (fst (prepare_loop astype_float32 st positions start stop))
  = last_prepared astype_float32 positions start stop st key.
Proof. unfold prepare_loop. by rewrite prepare_fold_traces. Qed.

Lemma prepare_loop_max st key :
  PyDict.get key (snd (prepare_loop astype_float32 st positions start stop))
  = peak <$> PyDict.get key (fst (prepare_loop astype_float32 st positions start stop)).
Proof. unfold prepare_loop. by apply prepare_fold_max. Qed.

Lemma found_origin st key init tr3 :
  foldl (found_step key) init st = Some tr3 →
  init = Some tr3
  ∨ ∃ tr, tr ∈ st ∧ stream_station_key tr = key ∧ kept tr = Some tr3.
Proof.
  revert init. induction st as [|tr rest IH]; intros init H; [by left|].
  cbn [foldl] in H. apply IH in H as [H|(tr' & Hin & Hkey & Hkept)].
  - destruct (kept tr) as [tr3'|] eqn:Ek; [|by left].
    destruct (String.eqb_spec (stream_station_key tr) key) as [Hk|_]; [|by left].
    right. exists tr. split; [by left|]. split; [done|]. congruence.
  - right. exists tr'. split; [by right|done].
Qed.

Lemma found_some st key init :
  is_Some init
  ∨ (∃ tr, tr ∈ st ∧ stream_station_key tr = key ∧ is_Some (kept tr)) →
  is_Some (foldl (found_step key) init st).
Proof.
  revert init. induction st as [|tr rest IH]; intros init H.
  - destruct H as [H|(tr & Hin & _)]; [done|inversion Hin].
  - cbn [foldl]. apply IH.
    destruct H as [H|(tr' & Hin & Hkey & Hkept)].
    + left. destruct (kept tr); [|done]. by destruct (String.eqb _ _).
    + apply elem_of_cons in Hin as [->|Hin].
      * left. destruct Hkept as [tr3 ->]. apply String.eqb_eq in Hkey.
        by rewrite Hkey.
      * right. eauto.
Qed.

Lemma found_unchanged st key init :
  (∀ tr, tr ∈ st → stream_station_key tr ≠ key) →
  foldl (found_step key) init st = init.
Proof.
  revert init. induction st as [|tr rest IH]; intros init H; [done|].
  cbn [foldl]. rewrite IH.
  - destruct (kept tr); [|done].
    destruct (String.eqb_spec (stream_station_key tr) key) as [Hk|_]; [|done].
    exfalso. eapply H; [by left|done].
  - intros tr' Hin. apply H. by right.
Qed.

Lemma found_unique st tr tr3 init :
  NoDup (map stream_station_key st) → tr ∈ st → kept tr = Some tr3 →
  foldl (found_step (stream_station_key tr)) init st = Some tr3.
Proof.
  revert init. induction st as [|x rest IH]; intros init Hnd Hin Hkept.
  - inversion Hin.
  - cbn [map] in Hnd. apply NoDup_cons in Hnd as [Hx Hnd]. cbn [foldl].
    apply elem_of_cons in Hin as [<-|Hin].
    + rewrite Hkept, String.eqb_refl. apply found_unchanged.
      intros tr' Hin' Hk. apply Hx. rewrite <- Hk.
      apply list_elem_of_fmap. eauto.
    + by apply IH.
Qed.

End Preparation.

(** ** Trimming *)

Lemma round_away_nonpos (x : Q) : x <= 0 → (round_away x <= 0)%Z.
Proof.
  intros Hx. unfold round_away. destruct (Qleb 0 x) eqn:E.
  - apply Qleb_le in E.
    assert (x + (1 # 2) <= 1 # 2) as H by lra.
    apply Qfloor_resp_le in H. by vm_compute in H |- *.
  - assert (x - (1 # 2) <= 0) as H by lra.
    apply Qceiling_resp_le in H. by vm_compute in H |- *.
Qed.

Lemma round_away_ge (x : Q) (n : Z) :
  0 <= x → inject_Z n <= x → (n <= round_away x)%Z.
Proof.
  intros H0 Hn. unfold round_away.
  assert (Qleb 0 x = true) as -> by by apply Qleb_le.
  assert (inject_Z n <= x + (1 # 2)) as H by lra.
  apply Qfloor_resp_le in H. by rewrite Qfloor_Z in H.
Qed.

Lemma endtime_after_start (tr : Trace) :
  0 < sampling_rate (stats tr) → starttime (stats tr) <= endtime tr.
Proof.
  intros Hsr. unfold endtime. destruct (data tr) as [|x rest] eqn:Ed; [lra|].
  assert (0 <= inject_Z (npts tr - 1) * delta tr); [|lra].
  apply Qmult_le_0_compat.
  - unfold npts. rewrite Ed. cbn [length].
    change 0 with (inject_Z 0). rewrite <- Zle_Qle. lia.
  - unfold delta. apply Qlt_le_weak, Qdiv_pos; [reflexivity|done].
Qed.

Lemma samples_to_stop (tr : Trace) (stop : Q) :
  0 < sampling_rate (stats tr) → data tr ≠ [] → endtime tr <= stop →
  inject_Z (npts tr - 1) <= (stop - starttime (stats tr)) * sampling_rate (stats tr).
Proof.
  intros Hsr Hne Hend. unfold endtime, delta in Hend.
  destruct (data tr) as [|x rest] eqn:Ed; [done|].
  set (n := inject_Z (npts tr - 1)) in *.
  set (sr := sampling_rate (stats tr)) in *.
  assert (n * (1 / sr) * sr <= (stop - starttime (stats tr)) * sr) as H.
  { apply Qmult_le_compat_r; lra. }
  assert (n * (1 / sr) * sr == n) as Hn by (field; lra).
  by rewrite Hn in H.
Qed.

(** A trace with a positive sampling rate that lies within the window is
    left as it is. *)
Lemma trim_within (tr : Trace) (start stop : Q) :
  0 < sampling_rate (stats tr) →
  start <= starttime (stats tr) → endtime tr <= stop →
  ObsPy.trim tr start stop = Ok tr.
Proof.
  intros Hsr Hstart Hstop.
  pose proof (endtime_after_start tr Hsr) as Hse.
  unfold ObsPy.trim.
  assert (Qltb stop start = false) as -> by (apply Qltb_ge; lra).
  f_equal.
  assert (ObsPy._ltrim tr start = tr) as ->.
  { unfold ObsPy._ltrim.
    assert (round_away ((start - starttime (stats tr)) * sampling_rate (stats tr)) <= 0)%Z
      as H.
    { apply round_away_nonpos.
      assert (0 <= (starttime (stats tr) - start) * sampling_rate (stats tr))
        by (apply Qmult_le_0_compat; lra).
      assert ((start - starttime (stats tr)) * sampling_rate (stats tr)
              == - ((starttime (stats tr) - start) * sampling_rate (stats tr)))
        as -> by ring.
      lra. }
    by destruct (Z.leb_spec (round_away ((start - starttime (stats tr))
                                         * sampling_rate (stats tr))) 0); [|lia]. }
  unfold ObsPy._rtrim.
  assert (0 <= (stop - starttime (stats tr)) * sampling_rate (stats tr)) as H0
    by (apply Qmult_le_0_compat; lra).
  assert (npts tr - 1 <= round_away ((stop - starttime (stats tr))
                                     * sampling_rate (stats tr)))%Z as H.
  { destruct (data tr) as [|x rest] eqn:Ed.
    - unfold npts. rewrite Ed. cbn [length Z.of_nat].
      assert (0 <= round_away ((stop - starttime (stats tr))
                               * sampling_rate (stats tr)))%Z; [|lia].
      by apply round_away_ge.
    - apply round_away_ge; [done|].
      apply samples_to_stop; [done| |done]. by rewrite Ed. }
  by destruct (Z.leb_spec 0 (round_away ((stop - starttime (stats tr))
                                         * sampling_rate (stats tr)) - npts tr + 1));
    [|lia].
Qed.

Lemma ltrim_slice (tr : Trace) (t : Q) :
  ∃ lo n, data (ObsPy._ltrim tr t) = take n (drop lo (data tr)).
Proof.
  unfold ObsPy._ltrim.
  destruct (_ <=? 0)%Z.
  - exists 0%nat, (length (data tr)). by rewrite drop_0, firstn_all.
  - destruct (Qltb _ _); cbn [with_data data].
    + by exists 0%nat, 0%nat.
    + eexists _, (length (drop _ (data tr))). by rewrite firstn_all.
Qed.

Lemma rtrim_slice (tr : Trace) (t : Q) :
  ∃ n, data (ObsPy._rtrim tr t) = take n (data tr).
Proof.
  unfold ObsPy._rtrim.
  destruct (0 <=? _)%Z.
  - exists (length (data tr)). by rewrite firstn_all.
  - destruct (Qltb _ _); cbn [with_data with_starttime data].
    + by exists 0%nat.
    + unfold ObsPy.slice_to. destruct (0 <=? _)%Z; eauto.
Qed.

(** Trimming never pads: what it keeps is a run of consecutive samples of
    the trace. *)
Lemma trim_slice (tr tr2 : Trace) (start stop : Q) :
  ObsPy.trim tr start stop = Ok tr2 →
  ∃ lo n, data tr2 = take n (drop lo (data tr)).
Proof.
  unfold ObsPy.trim. destruct (Qltb stop start); [done|]. intros [= <-].
  destruct (rtrim_slice (ObsPy._ltrim tr start) stop) as [m ->].
  destruct (ltrim_slice tr start) as (lo & n & ->).
  exists lo, (Nat.min m n). by rewrite take_take.
Qed.

(** ** Peak amplitudes *)

Lemma py_max_floor (m : Q) : 1 <= py_max 1 m ∧ m <= py_max 1 m.
Proof.
  unfold py_max. destruct (Qltb 1 m) eqn:E.
  - apply Qltb_lt in E. split; lra.
  - apply Qltb_ge in E. split; lra.
Qed.

Lemma max_fold_spec (rest : list Q) (m0 : Q) :
  let m := foldl (fun m y => py_max m (Qabs y)) m0 rest in
  m0 <= m ∧ (∀ y, y ∈ rest → Qabs y <= m)
  ∧ (m = m0 ∨ ∃ y, y ∈ rest ∧ m = Qabs y).
Proof.
  revert m0. induction rest as [|y rest IH]; intros m0; cbn [foldl].
  - split; [lra|]. split; [intros y Hy; inversion Hy|by left].
  - destruct (IH (py_max m0 (Qabs y))) as (Hge & Hall & Hatt).
    assert (m0 <= py_max m0 (Qabs y) ∧ Qabs y <= py_max m0 (Qabs y)) as [H1 H2].
    { unfold py_max. destruct (Qltb m0 (Qabs y)) eqn:E.
      - apply Qltb_lt in E. split; lra.
      - apply Qltb_ge in E. split; lra. }
    split; [lra|]. split.
    + intros z Hz. apply elem_of_cons in Hz as [->|Hz]; [lra|by apply Hall].
    + destruct Hatt as [->|(z & Hz & ->)].
      * unfold py_max. destruct (Qltb m0 (Qabs y)); [|by left].
        right. exists y. split; [by left|done].
      * right. exists z. split; [by right|done].
Qed.

Lemma max_abs_spec (d : list Q) :
  d ≠ [] →
  (∀ x, x ∈ d → Qabs x <= max_abs d) ∧ (∃ x, x ∈ d ∧ max_abs d = Qabs x).
Proof.
  destruct d as [|x rest]; [done|]. intros _. unfold max_abs.
  destruct (max_fold_spec rest (Qabs x)) as (Hge & Hall & Hatt).
  split.
  - intros z Hz. apply elem_of_cons in Hz as [->|Hz]; [done|by apply Hall].
  - destruct Hatt as [->|(z & Hz & ->)].
    + exists x. split; [by left|done].
    + exists z. split; [by right|done].
Qed.

Lemma peak_all_zero (tr3 : Trace) :
  data tr3 ≠ [] → (∀ x, x ∈ data tr3 → x == 0) → peak tr3 = 1.
Proof.
  intros Hne Hzero. unfold peak.
  destruct (max_abs_spec (data tr3) Hne) as (_ & x & Hx & ->).
  unfold py_max. destruct (Qltb 1 (Qabs x)) eqn:E; [|done].
  apply Qltb_lt in E. rewrite (Hzero x Hx) in E. by vm_compute in E.
Qed.

Lemma sample_total (tr : Trace) (t : Q) :
  ∃ v, sample_tr_at_time tr t = Ok v ∧ (v = 0 ∨ v ∈ data tr).
Proof.
  destruct (Z.lt_ge_cases (sample_index tr t) 0) as [Hneg|Hnn].
  { exists 0. split; [apply sample_out_of_range; by left|by left]. }
  destruct (Z.lt_ge_cases (sample_index tr t) (npts tr)) as [Hlt|Hge].
  - destruct (sample_in_range tr t) as (v & Hv & Hs); [lia|].
    exists v. split; [done|]. right. by eapply list_elem_of_lookup_2.
  - exists 0. split; [apply sample_out_of_range; by right|by left].
Qed.

Lemma py_div_floor (s pk : Q) : 1 <= pk → py_div s pk = Ok (s / pk).
Proof.
  intros Hpk. unfold py_div. destruct (Qeq_bool pk 0) eqn:E; [|done].
  apply Qeq_bool_iff in E. lra.
Qed.

(** ** What [prepare_meta] returns *)

Section Prepared.

Context (astype_float32 : Q → Q).

Lemma prepare_meta_inv st positions start stop step station_traces grid meta :
  prepare_meta astype_float32 st positions start stop step
  = Ok (station_traces, grid, meta) →
  station_traces = fst (prepare_loop astype_float32 st positions start stop)
  ∧ station_max meta = snd (prepare_loop astype_float32 st positions start stop)
  ∧ station_keys meta = PyDict.keys station_traces
  ∧ arange start stop step = Ok grid.
Proof.
  unfold prepare_meta.
  destruct (prepare_loop astype_float32 st positions start stop) as [traces maxes].
  destruct (arange start stop step) as [grid'|e]; cbn [mbind result_bind]; [|done].
  intros [= <- <- <-]. done.
Qed.

Lemma prepared_inv positions start stop tr tr3 :
  prepared astype_float32 positions start stop tr = Some tr3 →
  is_Some (positions !! stream_station_key tr)
  ∧ ∃ tr2, ObsPy.trim tr start stop = Ok tr2 ∧ data tr2 ≠ []
           ∧ tr3 = with_data tr2 (map astype_float32 (data tr2)).
Proof.
  unfold prepared.
  destruct (positions !! stream_station_key tr); [|done].
  destruct (ObsPy.trim tr start stop) as [tr2|e]; [|done].
  destruct (data tr2) eqn:Ed; [done|]. intros [= <-].
  split; [done|]. exists tr2. rewrite Ed. done.
Qed.

Lemma prepared_nonempty positions start stop tr tr3 :
  prepared astype_float32 positions start stop tr = Some tr3 → data tr3 ≠ [].
Proof.
  intros H. apply prepared_inv in H as (_ & tr2 & _ & Hne & ->).
  cbn [with_data data]. by destruct (data tr2).
Qed.

Lemma stored_origin st positions start stop key tr3 :
  PyDict.get key (fst (prepare_loop astype_float32 st positions start stop))
  = Some tr3 →
  ∃ tr, tr ∈ st ∧ stream_station_key tr = key
        ∧ prepared astype_float32 positions start stop tr = Some tr3.
Proof.
  rewrite prepare_loop_traces. unfold last_prepared. intros H.
  by apply found_origin in H as [H|H].
Qed.

End Prepared.

Lemma mapM_total {A B} (f : A → result B) (l : list A) :
  (∀ x, x ∈ l → ∃ y, f x = Ok y) →
  ∃ ys, mapM f l = Ok ys ∧ length ys = length l.
Proof.
  induction l as [|x rest IH]; intros Hf.
  - by exists [].
  - destruct (Hf x) as [y Hy]; [by left|].
    destruct IH as (ys & Hys & Hlen); [intros z Hz; apply Hf; by right|].
    exists (y :: ys). cbn [mapM]. rewrite Hy, Hys. cbn. by rewrite Hlen.
Qed.

Section Peaks.

Context (astype_float32 : Q → Q).

Lemma stored_station st positions start stop step station_traces grid meta key :
  prepare_meta astype_float32 st positions start stop step
  = Ok (station_traces, grid, meta) →
  key ∈ station_keys meta →
  ∃ tr3, PyDict.get key station_traces = Some tr3
         ∧ PyDict.get key (station_max meta) = Some (peak tr3)
         ∧ data tr3 ≠ [].
Proof.
  intros Hrun Hkey.
  apply prepare_meta_inv in Hrun as (-> & Hmax & Hkeys & _).
  rewrite Hkeys in Hkey. apply dict_keys_get in Hkey as [tr3 Htr3].
  exists tr3. split; [done|]. split.
  - by rewrite Hmax, prepare_loop_max, Htr3.
  - apply stored_origin in Htr3 as (tr & _ & _ & Hkept).
    by eapply prepared_nonempty.
Qed.

Lemma frame_value_stored station_traces meta key tr3 t :
  PyDict.get key station_traces = Some tr3 →
  PyDict.get key (station_max meta) = Some (peak tr3) →
  ∃ s, sample_tr_at_time tr3 t = Ok s ∧ (s = 0 ∨ s ∈ data tr3)
       ∧ frame_value station_traces meta t key = Ok (s / peak tr3).
Proof.
  intros Htr Hmax. destruct (sample_total tr3 t) as (s & Hs & Hcase).
  exists s. split; [done|]. split; [done|].
  unfold frame_value, PyDict.get_default. rewrite Htr, Hmax.
  cbn [mbind result_bind]. rewrite Hs. cbn [mbind result_bind].
  apply py_div_floor. apply py_max_floor.
Qed.

(** C6: for every station [prepare_meta] keeps, the stored peak is
    [max(1.0, m)] with [m] the largest absolute value among the stored
    samples; every frame value is the sample divided by that peak, so no
    division by zero occurs for any station and any frame; and when all
    stored samples are zero the peak is exactly 1 and every frame value is
    zero. *)
Theorem peak_amplitude_floor (st : Stream) (positions : Positions)
    (start stop step : Q) (station_traces : PyDict.t Trace) (grid : list Q)
    (meta : Meta) :
  prepare_meta astype_float32 st positions start stop step
  = Ok (station_traces, grid, meta) →
  (∀ key, key ∈ station_keys meta →
     ∃ tr3,
       PyDict.get key station_traces = Some tr3
       ∧ PyDict.get key (station_max meta) = Some (py_max 1 (max_abs (data tr3)))
       ∧ (∀ x, x ∈ data tr3 → Qabs x <= max_abs (data tr3))
       ∧ (∃ x, x ∈ data tr3 ∧ max_abs (data tr3) = Qabs x)
       ∧ (∀ t, ∃ s, sample_tr_at_time tr3 t = Ok s
                    ∧ frame_value station_traces meta t key
                      = Ok (s / py_max 1 (max_abs (data tr3))))
       ∧ ((∀ x, x ∈ data tr3 → x == 0) →
          PyDict.get key (station_max meta) = Some 1
          ∧ ∀ t, ∃ v, frame_value station_traces meta t key = Ok v ∧ v == 0))
  ∧ (∀ t, ∃ vals, frame_vector station_traces meta t = Ok vals
                  ∧ length vals = length (station_keys meta)).
Proof.
  intros Hrun. split.
  - intros key Hkey.
    destruct (stored_station _ _ _ _ _ _ _ _ _ Hrun Hkey) as (tr3 & Htr & Hmax & Hne).
    destruct (max_abs_spec (data tr3) Hne) as [Hge Hatt].
    exists tr3. split; [done|]. split; [done|]. split; [done|]. split; [done|].
    split.
    + intros t. destruct (frame_value_stored _ _ _ _ t Htr Hmax) as (s & Hs & _ & Hv).
      by exists s.
    + intros Hzero. rewrite Hmax. rewrite (peak_all_zero tr3 Hne Hzero).
      split; [done|]. intros t.
      destruct (frame_value_stored _ _ _ _ t Htr Hmax) as (s & _ & Hcase & Hv).
      rewrite (peak_all_zero tr3 Hne Hzero) in Hv.
      exists (s / 1). split; [done|].
      assert (s == 0) as -> by (destruct Hcase as [->|Hin]; [reflexivity|by apply Hzero]).
      reflexivity.
  - intros t. unfold frame_vector. apply mapM_total. intros key Hkey.
    destruct (stored_station _ _ _ _ _ _ _ _ _ Hrun Hkey) as (tr3 & Htr & Hmax & _).
    destruct (frame_value_stored _ _ _ _ t Htr Hmax) as (s & _ & _ & Hv).
    eauto.
Qed.

End Peaks.

Lemma peak_amplitude_floor_witness :
  ∃ station_traces grid meta,
    prepare_meta (fun x => x) [silent_trace] silent_positions 0 10 1
    = Ok (station_traces, grid, meta)
    ∧ "XX.DEF" ∈ station_keys meta
    ∧ PyDict.get "XX.DEF" (station_max meta) = Some 1
    ∧ ∀ t, ∃ vals, frame_vector station_traces meta t = Ok vals
                   ∧ length vals = length (station_keys meta).
Proof.
  destruct (prepare_meta (fun x => x) [silent_trace] silent_positions 0 10 1)
    as [[[station_traces grid] meta]|e] eqn:Hrun; [|by vm_compute in Hrun].
  exists station_traces, grid, meta. split; [reflexivity|].
  pose proof (peak_amplitude_floor (fun x => x) _ _ _ _ _ _ _ _ Hrun) as [Hkeys Hvec].
  assert ("XX.DEF" ∈ station_keys meta) as Hkey.
  { vm_compute in Hrun. injection Hrun as _ _ <-. cbn [station_keys]. by left. }
  split; [exact Hkey|]. split; [|exact Hvec].
  destruct (Hkeys _ Hkey) as (tr3 & Htr & _ & _ & _ & _ & Hzero).
  apply Hzero. intros x Hx.
  vm_compute in Hrun. injection Hrun as <- _ _.
  vm_compute in Htr. injection Htr as <-.
  cbn [data] in Hx. repeat (apply elem_of_cons in Hx as [->|Hx]; [reflexivity|]).
  inversion Hx.
Defined.

(** ** Stations that survive the preparation *)

Lemma safety_checks_pass env positions start stop log log' u :
  safety_checks env positions start stop log = (log', Next u) →
  Qeq_bool (time_step env) 0 = false.
Proof.
  unfold safety_checks, n_frames_of.
  destruct (Qltb 0 (stop - start)).
  - destruct (Qeq_bool (time_step env) 0); [|done].
    unfold propagate, raise, mbind, run_bind. done.
  - unfold propagate, when, print, emit, sys_exit, mbind, run_bind, mret, run_ret.
    cbn. done.
Qed.

Section Survivors.

Context (float_of_string : string → option Q).
Context (astype_float32 : Q → Q).

Lemma prepare_meta_total st positions start stop step :
  Qeq_bool step 0 = false →
  ∃ station_traces grid meta,
    prepare_meta astype_float32 st positions start stop step
    = Ok (station_traces, grid, meta).
Proof.
  intros Hstep. unfold prepare_meta, arange. rewrite Hstep.
  destruct (prepare_loop astype_float32 st positions start stop) as [traces maxes].
  cbn [mbind result_bind]. eauto.
Qed.

Lemma surviving_keys st positions start stop key :
  key ∈ PyDict.keys (fst (prepare_loop astype_float32 st positions start stop))
  ↔ ∃ tr tr2, tr ∈ st ∧ stream_station_key tr = key
              ∧ is_Some (positions !! key)
              ∧ ObsPy.trim tr start stop = Ok tr2 ∧ data tr2 ≠ [].
Proof.
  rewrite dict_keys_get, prepare_loop_traces. unfold last_prepared. split.
  - intros [tr3 H]. apply found_origin in H as [H|(tr & Hin & <- & Hkept)]; [done|].
    apply prepared_inv in Hkept as (Hpos & tr2 & Htrim & Hne & _).
    by exists tr, tr2.
  - intros (tr & tr2 & Hin & <- & [pos Hpos] & Htrim & Hne).
    apply found_some. right. exists tr. split; [done|]. split; [done|].
    unfold prepared. rewrite Hpos, Htrim. destruct (data tr2); [done|eauto].
Qed.

Lemma render_empty env st positions start stop log station_traces grid meta :
  prepare_meta astype_float32 st positions start stop (time_step env)
  = Ok (station_traces, grid, meta) →
  station_keys meta = [] →
  render astype_float32 env st positions start stop log
  = (log ++ [CallPrepare; Printed NoStationTraces], Halt (SysExit 1)).
Proof.
  intros Hrun Hkeys. unfold render. rewrite Hrun.
  unfold emit, when, print, emit, sys_exit, mbind, run_bind, mret, run_ret.
  rewrite Hkeys. cbn. by rewrite <- !app_assoc.
Qed.

Lemma render_nonempty env st positions start stop log station_traces grid meta :
  prepare_meta astype_float32 st positions start stop (time_step env)
  = Ok (station_traces, grid, meta) →
  station_keys meta ≠ [] →
  ∃ rest r,
    render astype_float32 env st positions start stop log
    = (log ++ [CallPrepare; Printed (Creating (length grid)); CallAnimation] ++ rest, r).
Proof.
  intros Hrun Hkeys. unfold render. rewrite Hrun.
  unfold emit, when, print, emit, sys_exit, mbind, run_bind, mret, run_ret.
  destruct (station_keys meta) as [|k ks]; [done|]. cbn.
  destruct (animation env) as [[]|[]]; cbn;
    eexists _, _; rewrite <- !app_assoc; cbn; reflexivity.
Qed.

(** C7: once the checks have passed, [prepare_meta] returns; the station
    keys it keeps are exactly the keys of the traces that have a position
    and whose trim succeeds with at least one sample, so a trace whose
    trim raises or leaves nothing is dropped and the loop goes on; what is
    stored for a key is such a trace, its samples a run of consecutive
    samples of the original (nothing padded), in single precision; when no
    two traces share a station key, a trace is stored exactly when it has
    a position and its trim leaves samples; and the run ends with exit status 1 and a printed line when no station is
    kept, while it goes on to the animation when one is. *)
Theorem prepare_keeps_positioned_nonempty (env : Env) (log log' : list Event)
    (st : Stream) (positions : Positions) (start stop : Q) :
  setup float_of_string env [] = (log, Next (st, positions, start, stop)) →
  safety_checks env positions start stop log = (log', Next tt) →
  ∃ station_traces grid meta,
    prepare_meta astype_float32 st positions start stop (time_step env)
    = Ok (station_traces, grid, meta)
    ∧ (∀ key, key ∈ station_keys meta
              ↔ ∃ tr tr2, tr ∈ st ∧ stream_station_key tr = key
                          ∧ is_Some (positions !! key)
                          ∧ ObsPy.trim tr start stop = Ok tr2 ∧ data tr2 ≠ [])
    ∧ (∀ key tr3, PyDict.get key station_traces = Some tr3 →
         ∃ tr tr2 lo n,
           tr ∈ st ∧ stream_station_key tr = key
           ∧ ObsPy.trim tr start stop = Ok tr2
           ∧ data tr2 = take n (drop lo (data tr)) ∧ data tr2 ≠ []
           ∧ tr3 = with_data tr2 (map astype_float32 (data tr2)))
    ∧ (NoDup (map stream_station_key st) →
       ∀ tr, tr ∈ st →
         (∃ tr2, ObsPy.trim tr start stop = Ok tr2 ∧ data tr2 ≠ []
                 ∧ PyDict.get (stream_station_key tr) station_traces
                   = Some (with_data tr2 (map astype_float32 (data tr2))))
         ↔ (is_Some (positions !! stream_station_key tr)
            ∧ ∃ tr2, ObsPy.trim tr start stop = Ok tr2 ∧ data tr2 ≠ []))
    ∧ (station_keys meta = [] →
       run_main float_of_string astype_float32 env
       = (log' ++ [CallPrepare; Printed NoStationTraces], SysExit 1))
    ∧ (station_keys meta ≠ [] →
       CallAnimation ∈ fst (run_main float_of_string astype_float32 env)).
Proof.
  intros Hsetup Hchecks.
  pose proof (safety_checks_pass _ _ _ _ _ _ _ Hchecks) as Hstep.
  destruct (prepare_meta_total st positions start stop (time_step env) Hstep)
    as (station_traces & grid & meta & Hrun).
  exists station_traces, grid, meta. split; [done|].
  pose proof (prepare_meta_inv _ _ _ _ _ _ _ _ _ Hrun) as (Htr & _ & Hkeys & _).
  assert (∀ r, main float_of_string astype_float32 env [] = r →
               render astype_float32 env st positions start stop log' = r) as Hmain.
  { intros r <-. unfold main. rewrite (run_bind_next _ _ _ _ _ Hsetup).
    cbn beta iota. by rewrite (run_bind_next _ _ _ _ _ Hchecks). }
  split; [|split; [|split; [|split]]].
  - intros key. rewrite Hkeys, Htr. apply surviving_keys.
  - intros key tr3 Hget. rewrite Htr in Hget.
    apply stored_origin in Hget as (tr & Hin & Hkey & Hkept).
    apply prepared_inv in Hkept as (_ & tr2 & Htrim & Hne & ->).
    destruct (trim_slice _ _ _ _ Htrim) as (lo & n & Hslice).
    by exists tr, tr2, lo, n.
  - intros Hnd tr Hin. rewrite Htr. split.
    + intros (tr2 & Htrim & Hne & Hget). split; [|by exists tr2].
      apply stored_origin in Hget as (tr' & _ & Hkey & Hkept).
      apply prepared_inv in Hkept as (Hpos & _). by rewrite <- Hkey.
    + intros ([pos Hpos] & tr2 & Htrim & Hne). exists tr2.
      split; [done|]. split; [done|].
      rewrite prepare_loop_traces. unfold last_prepared.
      apply found_unique; [done|done|].
      unfold prepared. rewrite Hpos, Htrim. by destruct (data tr2).
  - intros Hempty. unfold run_main.
    rewrite <- (Hmain _ eq_refl).
    by rewrite (render_empty _ _ _ _ _ _ _ _ _ Hrun Hempty).
  - intros Hsome. unfold run_main.
    rewrite <- (Hmain _ eq_refl).
    destruct (render_nonempty env st positions start stop log' _ _ _ Hrun Hsome)
      as (rest & r & ->).
    assert (CallAnimation
            ∈ log' ++ [CallPrepare; Printed (Creating (length grid)); CallAnimation] ++ rest)
      as Hin.
    { apply elem_of_app. right. apply elem_of_app. left.
      rewrite !elem_of_cons. auto. }
    by destruct r.
Qed.

(** C8: a trace with a position, a positive sampling rate and at least one
    sample, whose station key no other trace of the stream has and which
    lies within the window, is kept with all its samples: the stored
    samples are the original ones converted to single precision, as many
    as before. *)
Theorem within_window_keeps_samples (st : Stream) (positions : Positions)
    (start stop step : Q) (station_traces : PyDict.t Trace) (grid : list Q)
    (meta : Meta) (tr : Trace) :
  prepare_meta astype_float32 st positions start stop step
  = Ok (station_traces, grid, meta) →
  NoDup (map stream_station_key st) → tr ∈ st →
  is_Some (positions !! stream_station_key tr) →
  0 < sampling_rate (stats tr) → data tr ≠ [] →
  start <= starttime (stats tr) → endtime tr <= stop →
  stream_station_key tr ∈ station_keys meta
  ∧ ∃ tr3, PyDict.get (stream_station_key tr) station_traces = Some tr3
           ∧ stats tr3 = stats tr
           ∧ data tr3 = map astype_float32 (data tr)
           ∧ length (data tr3) = length (data tr).
Proof.
  intros Hrun Hnd Hin [pos Hpos] Hsr Hne Hstart Hstop.
  apply prepare_meta_inv in Hrun as (-> & _ & -> & _).
  assert (prepared astype_float32 positions start stop tr
          = Some (with_data tr (map astype_float32 (data tr)))) as Hkept.
  { unfold prepared. rewrite Hpos, trim_within by done. by destruct (data tr). }
  assert (PyDict.get (stream_station_key tr)
            (fst (prepare_loop astype_float32 st positions start stop))
          = Some (with_data tr (map astype_float32 (data tr)))) as Hget.
  { rewrite prepare_loop_traces. unfold last_prepared. by apply found_unique. }
  split.
  - apply dict_keys_get. by rewrite Hget.
  - eexists. split; [exact Hget|]. cbn [with_data stats data].
    by rewrite length_map.
Qed.

End Survivors.

Lemma prepare_keeps_positioned_nonempty_witness :
  ∃ log log' st positions start stop,
    setup decimal_literal env_sac_with_csv [] = (log, Next (st, positions, start, stop))
    ∧ safety_checks env_sac_with_csv positions start stop log = (log', Next tt)
    ∧ run_main decimal_literal (fun x => x) env_sac_with_csv
      = (log' ++ [CallPrepare; Printed NoStationTraces], SysExit 1).
Proof.
  eexists _, _, _, _, _, _.
  assert (setup decimal_literal env_sac_with_csv []
          = ([Printed (FoundFiles 1)],
             Next ([sac_trace_abc], {[ "XX.DEF" := (45.2, -123.5) ]}, 0, 10)))
    as Hsetup by (vm_compute; reflexivity).
  assert (safety_checks env_sac_with_csv {[ "XX.DEF" := (45.2, -123.5) ]} 0 10
            [Printed (FoundFiles 1)]
          = ([Printed (FoundFiles 1); Printed (Generating 10 1)], Next tt))
    as Hchecks by (vm_compute; reflexivity).
  split; [exact Hsetup|]. split; [exact Hchecks|].
  destruct (prepare_keeps_positioned_nonempty decimal_literal (fun x => x)
              env_sac_with_csv _ _ _ _ _ _ Hsetup Hchecks)
    as (station_traces & grid & meta & Hrun & _ & _ & _ & Hempty & _).
  apply Hempty. vm_compute in Hrun. by injection Hrun as _ _ <-.
Defined.

Lemma within_window_keeps_samples_witness :
  ∃ station_traces grid meta,
    prepare_meta (fun x => x) [silent_trace] silent_positions 0 10 1
    = Ok (station_traces, grid, meta)
    ∧ NoDup (map stream_station_key [silent_trace])
    ∧ silent_trace ∈ [silent_trace]
    ∧ 0 < sampling_rate (stats silent_trace)
    ∧ 0 <= starttime (stats silent_trace) ∧ endtime silent_trace <= 10
    ∧ ∃ tr3, PyDict.get "XX.DEF" station_traces = Some tr3
             ∧ data tr3 = [0; 0; 0].
Proof.
  destruct (prepare_meta (fun x => x) [silent_trace] silent_positions 0 10 1)
    as [[[station_traces grid] meta]|e] eqn:Hrun; [|by vm_compute in Hrun].
  exists station_traces, grid, meta. split; [reflexivity|].
  assert (NoDup (map stream_station_key [silent_trace])) as Hnd
    by (apply NoDup_singleton).
  assert (silent_trace ∈ [silent_trace]) as Hin by (by left).
  assert (endtime silent_trace <= 10) as Hend by (by vm_compute).
  assert (0 <= starttime (stats silent_trace)) as Hstart by (by vm_compute).
  split; [exact Hnd|]. split; [exact Hin|]. split; [reflexivity|].
  split; [exact Hstart|]. split; [exact Hend|].
  destruct (within_window_keeps_samples (fun x => x) _ _ _ _ _ _ _ _ silent_trace
              Hrun Hnd Hin)
    as (_ & tr3 & Hget & _ & Hdata & _);
    [by eexists|reflexivity|done|exact Hstart|exact Hend|].
  exists tr3. split; [exact Hget|exact Hdata].
Defined.

(** ** The station table *)

Section Table.

Context (float_of_string : string → option Q).

#[local] Abbreviation accepts := (accepted float_of_string).

Lemma blank_fields (line : string) : Str.strip line = "" → fields line = [""].
Proof. unfold fields. by intros ->. Qed.

Lemma accepted_not_blank line key pos :
  accepts line key pos → String.eqb (Str.strip line) "" = false.
Proof.
  intros H. destruct (String.eqb_spec (Str.strip line) "") as [Hb|]; [|done].
  apply blank_fields in Hb.
  destruct H as [(? & ? & ? & ? & Hf & _)|(? & ? & ? & Hf & _)]; congruence.
Qed.

Lemma accepted_unique line k v k' v' :
  accepts line k v → accepts line k' v' → k = k' ∧ v = v'.
Proof.
  destruct v as [la lo], v' as [la' lo']. cbn [fst snd]. unfold accepted.
  intros [(? & ? & ? & ? & Hf & -> & Hla & Hlo)|(? & ? & ? & Hf & -> & Hla & Hlo)]
         [(? & ? & ? & ? & Hf' & -> & Hla' & Hlo')|(? & ? & ? & Hf' & -> & Hla' & Hlo')];
    cbn [fst snd] in *; rewrite Hf in Hf'; simplify_eq; done.
Qed.

Lemma skipped_not_accepted line k v : skipped line → ¬ accepts line k v.
Proof.
  intros [Hb|[H3 H4]] Hacc.
  - apply accepted_not_blank in Hacc. rewrite Hb in Hacc. done.
  - destruct Hacc as [(? & ? & ? & ? & Hf & _)|(? & ? & ? & Hf & _)];
      rewrite Hf in H3, H4; done.
Qed.

Lemma csv_row_skipped d line :
  skipped line → csv_row float_of_string d line = Ok d.
Proof.
  intros [Hb|[H3 H4]]; unfold csv_row.
  - by rewrite Hb.
  - destruct (String.eqb _ _); [done|]. fold (fields line).
    destruct (fields line) as [|a [|b [|c [|e [|g rest]]]]]; done.
Qed.

Lemma csv_row_accepted d line key pos :
  accepts line key pos → csv_row float_of_string d line = Ok (<[key := pos]> d).
Proof.
  intros Hacc. unfold csv_row. rewrite (accepted_not_blank _ _ _ Hacc).
  fold (fields line). destruct pos as [la lo]. unfold to_float.
  destruct Hacc as [(? & ? & ? & ? & -> & -> & Hla & Hlo)|(? & ? & ? & -> & -> & Hla & Hlo)];
    cbn [fst snd] in *; by rewrite Hla, Hlo.
Qed.

(** A row that does not raise is accepted or skipped. *)
Lemma csv_row_inv d line d' :
  csv_row float_of_string d line = Ok d' →
  (skipped line ∧ d' = d) ∨ (∃ key pos, accepts line key pos ∧ d' = <[key := pos]> d).
Proof.
  unfold csv_row.
  destruct (String.eqb_spec (Str.strip line) "") as [Hb|Hnb].
  { intros [= <-]. left. split; [by left|done]. }
  fold (fields line). unfold to_float.
  destruct (fields line) as [|a [|b [|c [|e [|g rest]]]]] eqn:Hf;
    try (intros [= <-]; left; split; [right; rewrite Hf; done|done]).
  - destruct (float_of_string b) as [la|] eqn:Hla; [|done].
    destruct (float_of_string c) as [lo|] eqn:Hlo; [|done].
    intros [= <-]. right. exists a, (la, lo). split; [|done].
    right. by exists a, b, c.
  - destruct (float_of_string c) as [la|] eqn:Hla; [|done].
    destruct (float_of_string e) as [lo|] eqn:Hlo; [|done].
    intros [= <-]. right. exists (a +:+ "." +:+ b), (la, lo). split; [|done].
    left. by exists a, b, c, e.
Qed.

#[local] Abbreviation last_row := (last_accepted float_of_string).

Lemma csv_rows_lookup rows d table key pos :
  csv_rows float_of_string d rows = Ok table →
  table !! key = Some pos
  ↔ last_row rows key pos
    ∨ (d !! key = Some pos ∧ ∀ line pos', line ∈ rows → ¬ accepts line key pos').
Proof.
  revert d. induction rows as [|line rest IH]; intros d; cbn [csv_rows].
  - intros [= <-]. split.
    + intros H. right. split; [done|]. intros line pos' Hin. inversion Hin.
    + intros [(pre & line & post & Heq & _)|[H _]]; [by destruct pre|done].
  - destruct (csv_row float_of_string d line) as [d'|e] eqn:Hrow;
      cbn [mbind result_bind]; [|done].
    intros Hrest. rewrite (IH d' Hrest). clear IH.
    apply csv_row_inv in Hrow as [[Hskip ->]|(k & v & Hacc & ->)].
    + split.
      * intros [(pre & l & post & -> & Hl & Hpost)|[Hd Hnone]].
        -- left. by exists (line :: pre), l, post.
        -- right. split; [done|]. intros l pos' Hin.
           apply elem_of_cons in Hin as [->|Hin]; [by apply skipped_not_accepted|eauto].
      * intros [(pre & l & post & Heq & Hl & Hpost)|[Hd Hnone]].
        -- destruct pre as [|x pre]; injection Heq as <- ->.
           { exfalso. by eapply skipped_not_accepted. }
           left. by exists pre, l, post.
        -- right. split; [done|]. intros l pos' Hin. apply Hnone. by right.
    + split.
      * intros [(pre & l & post & -> & Hl & Hpost)|[Hd Hnone]].
        -- left. by exists (line :: pre), l, post.
        -- destruct (decide (k = key)) as [->|Hne].
           ++ left. rewrite lookup_insert_eq in Hd. injection Hd as ->.
              exists [], line, rest. split; [done|]. split; [done|].
              intros l pos' Hin. by apply Hnone.
           ++ right. rewrite lookup_insert_ne in Hd by done. split; [done|].
              intros l pos' Hin. apply elem_of_cons in Hin as [->|Hin]; [|eauto].
              intros Hacc'. by destruct (accepted_unique _ _ _ _ _ Hacc Hacc').
      * intros [(pre & l & post & Heq & Hl & Hpost)|[Hd Hnone]].
        -- destruct pre as [|x pre]; injection Heq as <- ->.
           ++ destruct (accepted_unique _ _ _ _ _ Hacc Hl) as [-> ->].
              right. by rewrite lookup_insert_eq.
           ++ left. by exists pre, l, post.
        -- right. destruct (decide (k = key)) as [->|Hne].
           ++ exfalso. eapply Hnone; [by left|done].
           ++ rewrite lookup_insert_ne by done. split; [done|].
              intros l pos' Hin. apply Hnone. by right.
Qed.

Lemma csv_rows_total rows d :
  (∀ line, line ∈ rows → skipped line ∨ ∃ key pos, accepts line key pos) →
  ∃ table, csv_rows float_of_string d rows = Ok table.
Proof.
  revert d. induction rows as [|line rest IH]; intros d Hrows; cbn [csv_rows].
  - eauto.
  - destruct (Hrows line) as [Hskip|(key & pos & Hacc)]; [by left| |].
    + rewrite (csv_row_skipped _ _ Hskip). cbn [mbind result_bind].
      apply IH. intros l Hl. apply Hrows. by right.
    + rewrite (csv_row_accepted _ _ _ _ Hacc). cbn [mbind result_bind].
      apply IH. intros l Hl. apply Hrows. by right.
Qed.

(** C9: the loader passes over the header line; a row is accepted when it
    has exactly four fields, keyed by [network.station], or exactly three
    fields, keyed by the station name, and maps its key to the pair
    (latitude, longitude) read as numbers; a blank row and a row with any
    other number of fields are passed over without an error; so the table
    the loader returns maps a key to the pair of the last row accepted for
    it, and it does return a table when every row is accepted or passed
    over. *)
Theorem load_station_csv_rows :
  (∀ d line, skipped line → csv_row float_of_string d line = Ok d)
  ∧ (∀ d line key pos, accepts line key pos →
       csv_row float_of_string d line = Ok (<[key := pos]> d))
  ∧ (∀ header rows table key pos,
       load_station_csv float_of_string (header :: rows) = Ok table →
       table !! key = Some pos ↔ last_row rows key pos)
  ∧ (∀ header rows,
       (∀ line, line ∈ rows → skipped line ∨ ∃ key pos, accepts line key pos) →
       ∃ table, load_station_csv float_of_string (header :: rows) = Ok table).
Proof.
  split; [apply csv_row_skipped|]. split; [apply csv_row_accepted|]. split.
  - intros header rows table key pos Hload. unfold load_station_csv in Hload.
    cbn [tail] in Hload. rewrite (csv_rows_lookup _ _ _ key pos Hload).
    split; [|by left]. intros [H|[H _]]; [done|]. by rewrite lookup_empty in H.
  - intros header rows Hrows. unfold load_station_csv. cbn [tail].
    by apply csv_rows_total.
Qed.

End Table.

Lemma load_station_csv_rows_witness :
  skipped "comment,ignored"
  ∧ accepted decimal_literal "GHI, 45.3, -123.6" "GHI" (45.3, -123.6)
  ∧ ∃ table, load_station_csv decimal_literal scenario1_csv = Ok table
             ∧ table !! "XX.ABC" = Some (45.1, -123.4)
             ∧ table !! "GHI" = Some (45.3, -123.6)
             ∧ size table = 3%nat.
Proof.
  destruct (load_station_csv_rows decimal_literal) as (Hskip & Hacc & Hlookup & Htotal).
  assert (skipped "comment,ignored") as Hs by (right; by vm_compute).
  assert (accepted decimal_literal "GHI, 45.3, -123.6" "GHI" (45.3, -123.6)) as Ha.
  { right. exists "GHI", "45.3", "-123.6". by vm_compute. }
  split; [exact Hs|]. split; [exact Ha|].
  pose proof (Hskip ∅ _ Hs) as Hrow1. pose proof (Hacc ∅ _ _ _ Ha) as Hrow2.
  destruct (load_station_csv decimal_literal scenario1_csv) as [table|e] eqn:Hload;
    [|by vm_compute in Hload].
  exists table. split; [reflexivity|].
  split; [|split].
  - apply (Hlookup _ _ _ _ _ Hload).
    exists [], "XX,ABC,45.1,-123.4",
      [""; "XX,DEF,45.2,-123.5"; "comment,ignored"; "GHI, 45.3, -123.6"].
    split; [reflexivity|]. split.
    + left. exists "XX", "ABC", "45.1", "-123.4". by vm_compute.
    + intros line pos' Hin.
      repeat (apply elem_of_cons in Hin as [->|Hin];
              [intros [(? & ? & ? & ? & Hf & Hk & _)|(? & ? & ? & Hf & Hk & _)];
               vm_compute in Hf; simplify_eq|]).
      inversion Hin.
  - apply (Hlookup _ _ _ _ _ Hload).
    exists ["XX,ABC,45.1,-123.4"; ""; "XX,DEF,45.2,-123.5"; "comment,ignored"],
      "GHI, 45.3, -123.6", [].
    split; [reflexivity|]. split; [exact Ha|].
    intros line pos' Hin. inversion Hin.
  - vm_compute in Hload. injection Hload as <-. by vm_compute.
Defined.

(** ** SEG-Y positions *)

Lemma segy_build_spec sr scale rs i acc :
  let out := segy_build sr scale i rs acc in
  length (fst out) = (length (fst acc) + length rs)%nat
  ∧ (∀ tr, tr ∈ fst out →
       tr ∈ fst acc ∨ ∃ j r, rs !! j = Some r ∧ tr = segy_trace sr (i + j) r)
  ∧ (∀ key, is_Some (snd acc !! key) → is_Some (snd out !! key))
  ∧ (∀ j r, rs !! j = Some r → is_Some (snd out !! segy_key (i + j) r))
  ∧ (∀ key pos, snd out !! key = Some pos →
       snd acc !! key = Some pos
       ∨ ∃ j r, rs !! j = Some r ∧ key = segy_key (i + j) r
                ∧ pos = segy_position scale r).
Proof.
  revert i acc. induction rs as [|r rest IH]; intros i acc; cbn [segy_build].
  - cbn. split; [lia|]. split; [by left|]. split; [done|].
    split; [intros j r Hj; done|by left].
  - destruct (IH (S i) (fst acc ++ [segy_trace sr i r],
                        <[stream_station_key (segy_trace sr i r)
                          := segy_position scale r]> (snd acc)))
      as (Hlen & Htr & Hkeep & Hkeys & Hpos).
    cbn [fst snd] in *. split; [|split; [|split; [|split]]].
    + rewrite Hlen, length_app. cbn. lia.
    + intros tr Hin. apply Htr in Hin as [Hin|(j & r' & Hj & ->)].
      * apply elem_of_app in Hin as [Hin|Hin]; [by left|].
        apply list_elem_of_singleton in Hin as ->.
        right. exists 0%nat, r. by rewrite Nat.add_0_r.
      * right. exists (S j), r'. split; [done|]. by rewrite Nat.add_succ_r.
    + intros key Hkey. apply Hkeep.
      destruct (decide (stream_station_key (segy_trace sr i r) = key)) as [->|Hne].
      * by rewrite lookup_insert_eq.
      * by rewrite lookup_insert_ne.
    + intros [|j] r' Hj.
      * injection Hj as ->. rewrite Nat.add_0_r. apply Hkeep.
        change (stream_station_key (segy_trace sr i r')) with (segy_key i r').
        by rewrite lookup_insert_eq.
      * rewrite Nat.add_succ_r. by apply Hkeys.
    + intros key pos Hlook. apply Hpos in Hlook as [Hlook|(j & r' & Hj & -> & ->)].
      * destruct (decide (stream_station_key (segy_trace sr i r) = key)) as [<-|Hne].
        -- rewrite lookup_insert_eq in Hlook. injection Hlook as <-.
           right. exists 0%nat, r. by rewrite Nat.add_0_r.
        -- rewrite lookup_insert_ne in Hlook by done. by left.
      * right. exists (S j), r'. by rewrite Nat.add_succ_r.
Qed.



(** * Further properties of the program *)

(** ** The time grid and the frame count *)

Lemma Qdiv_le_num (a b c : Q) : 0 < c → a <= b → a / c <= b / c.
Proof.
  intros Hc Hab. apply Qle_shift_div_l; [done|].
  assert (a / c * c == a) as -> by (field; lra). done.
Qed.

Lemma Qdiv_le_den (d s1 s2 : Q) : 0 <= d → 0 < s1 → s1 <= s2 → d / s2 <= d / s1.
Proof.
  intros Hd H1 H12. apply Qle_shift_div_r; [lra|].
  assert (0 <= d / s1) as Hq.
  { apply Qle_shift_div_l; [done|]. by rewrite Qmult_0_l. }
  assert (d / s1 * s1 == d) as Hmul by (field; lra).
  assert (d / s1 * s1 <= d / s1 * s2) as Hle
    by (rewrite !(Qmult_comm (d / s1)); by apply Qmult_le_compat_r).
  lra.
Qed.



(** X2: for a non-empty window the frame count is at least one, and a
    coarser step never asks for more frames nor for more estimated memory
    than a finer one. *)
Theorem coarser_step_fewer_frames (start stop step1 step2 : Q) :
  start < stop → 0 < step1 → step1 <= step2 →
  ∃ n1 n2,
    n_frames_of start stop step1 = Ok n1
    ∧ n_frames_of start stop step2 = Ok n2
    ∧ (1 <= n2 <= n1)%Z
    ∧ ∀ positions,
        est_mb_of (est_bytes_of n2 (n_stations_of positions))
        <= est_mb_of (est_bytes_of n1 (n_stations_of positions)).
Proof.
  intros Hlt H1 H12. unfold n_frames_of.
  assert (Qltb 0 (stop - start) = true) as -> by (apply Qltb_lt; lra).
  destruct (Qeq_bool step1 0) eqn:E1; [apply Qeq_bool_iff in E1; lra|].
  destruct (Qeq_bool step2 0) eqn:E2; [apply Qeq_bool_iff in E2; lra|].
  eexists _, _. split; [done|]. split; [done|].
  assert (1 <= Qceiling ((stop - start) / step2)
          <= Qceiling ((stop - start) / step1))%Z as Hn.
  { split.
    - assert (0 < Qceiling ((stop - start) / step2))%Z; [|lia].
      apply Qceiling_pos, Qdiv_pos; lra.
    - apply Qceiling_resp_le, Qdiv_le_den; lra. }
  split; [done|]. intros positions.
  unfold est_mb_of, est_bytes_of, n_stations_of.
  apply Qdiv_le_num; [reflexivity|]. rewrite <- Zle_Qle. nia.
Qed.

Lemma coarser_step_fewer_frames_witness :
  ∃ n1 n2,
    n_frames_of 0 600 1 = Ok n1 ∧ n_frames_of 0 600 7 = Ok n2
    ∧ (1 <= n2 <= n1)%Z.
Proof.
  destruct (coarser_step_fewer_frames 0 600 1 7) as (n1 & n2 & H1 & H2 & Hn & _);
    [reflexivity|reflexivity|by vm_compute|].
  by exists n1, n2.
Defined.

(** ** Sampling and normalising *)

Lemma py_round_comp (x y : Q) : x == y → py_round x = py_round y.
Proof.
  intros H. unfold py_round, Qltb. rewrite (Qfloor_comp _ _ H).
  assert (x - inject_Z (Qfloor y) == y - inject_Z (Qfloor y)) as Hd
    by (rewrite H; reflexivity).
  by rewrite !Hd.
Qed.

Lemma py_round_integer (n : Z) : py_round (inject_Z n) = n.
Proof.
  unfold py_round. rewrite Qfloor_Z.
  assert (Qltb (inject_Z n - inject_Z n) (1 # 2) = true) as ->; [|done].
  apply Qltb_lt. lra.
Qed.



Lemma mapM_Forall {A B} (f : A → result B) (P : B → Prop) (l : list A) :
  (∀ x, x ∈ l → ∃ y, f x = Ok y ∧ P y) →
  ∃ ys, mapM f l = Ok ys ∧ length ys = length l ∧ Forall P ys.
Proof.
  induction l as [|x rest IH]; intros Hf.
  - by exists [].
  - destruct (Hf x) as (y & Hy & HP); [by left|].
    destruct IH as (ys & Hys & Hlen & Hall); [intros z Hz; apply Hf; by right|].
    exists (y :: ys). cbn [mapM]. rewrite Hy, Hys. cbn.
    rewrite Hlen. split; [done|]. split; [done|]. by constructor.
Qed.

Lemma normalised_sample (tr3 : Trace) (t : Q) :
  data tr3 ≠ [] →
  ∃ s, sample_tr_at_time tr3 t = Ok s
       ∧ py_div s (peak tr3) = Ok (s / peak tr3)
       ∧ -1 <= s / peak tr3 ∧ s / peak tr3 <= 1.
Proof.
  intros Hne. destruct (sample_total tr3 t) as (s & Hs & Hcase).
  pose proof (py_max_floor (max_abs (data tr3))) as [H1 Hm]. fold (peak tr3) in H1, Hm.
  exists s. split; [done|]. split; [by apply py_div_floor|].
  assert (Qabs s <= peak tr3) as Habs.
  { destruct Hcase as [->|Hin]; [change (Qabs 0) with 0; lra|].
    destruct (max_abs_spec (data tr3) Hne) as [Hge _].
    pose proof (Hge s Hin). lra. }
  apply Qabs_Qle_condition in Habs as [Hlo Hhi].
  split.
  - apply Qle_shift_div_l; lra.
  - apply Qle_shift_div_r; lra.
Qed.

Section Amplitudes.

Context (astype_float32 : Q → Q).

(** X4: every value the animation plots is normalised into [-1, 1]: the
    entries of each frame vector of [update], one per station key, and the
    reference series [ref_amps], one per grid time; neither computation
    raises on what [prepare_meta] returned. *)
Theorem normalised_amplitudes_bounded (st : Stream) (positions : Positions)
    (start stop step : Q) (station_traces : PyDict.t Trace) (grid : list Q)
    (meta : Meta) :
  prepare_meta astype_float32 st positions start stop step
  = Ok (station_traces, grid, meta) →
  (∀ t, ∃ vals,
      frame_vector station_traces meta t = Ok vals
      ∧ length vals = length (station_keys meta)
      ∧ Forall (fun v => -1 <= v ∧ v <= 1) vals)
  ∧ (station_keys meta ≠ [] →
     ∃ amps,
       ref_amps station_traces meta grid = Ok amps
       ∧ length amps = length grid
       ∧ Forall (fun a => -1 <= a ∧ a <= 1) amps).
Proof.
  intros Hrun. split.
  - intros t. unfold frame_vector. apply mapM_Forall. intros key Hkey.
    destruct (stored_station _ _ _ _ _ _ _ _ _ _ Hrun Hkey) as (tr3 & Htr & Hmax & Hne).
    destruct (normalised_sample tr3 t Hne) as (s & Hs & Hdiv & Hbound).
    exists (s / peak tr3). split; [|done].
    unfold frame_value, PyDict.get_default. rewrite Htr, Hmax.
    cbn [mbind result_bind]. rewrite Hs. cbn [mbind result_bind]. done.
  - intros Hkeys. unfold ref_amps.
    destruct (station_keys meta) as [|ref_key keys] eqn:Ek; [done|].
    destruct (stored_station _ _ _ _ _ _ _ _ _ ref_key Hrun) as (tr3 & Htr & Hmax & Hne).
    { rewrite Ek. by left. }
    unfold PyDict.get_default. rewrite Htr, Hmax. cbn [mbind result_bind].
    apply mapM_Forall. intros t _.
    destruct (normalised_sample tr3 t Hne) as (s & Hs & Hdiv & Hbound).
    exists (s / peak tr3). split; [|done].
    rewrite Hs. cbn [mbind result_bind]. done.
Qed.

End Amplitudes.

Lemma normalised_amplitudes_bounded_witness :
  ∃ station_traces grid meta,
    prepare_meta (fun x => x) [trace_xx_abc] {[ "XX.ABC" := (45.1, -123.4) ]}
                 946684800 946684810 1
    = Ok (station_traces, grid, meta)
    ∧ ∃ amps, ref_amps station_traces meta grid = Ok amps
              ∧ length amps = length grid.
Proof.
  destruct (prepare_meta (fun x => x) [trace_xx_abc] {[ "XX.ABC" := (45.1, -123.4) ]}
              946684800 946684810 1)
    as [[[station_traces grid] meta]|e] eqn:Hrun; [|by vm_compute in Hrun].
  exists station_traces, grid, meta. split; [reflexivity|].
  destruct (normalised_amplitudes_bounded (fun x => x) _ _ _ _ _ _ _ _ Hrun)
    as [_ Href].
  destruct Href as (amps & Hamps & Hlen & _).
  { vm_compute in Hrun. by injection Hrun as _ _ <-. }
  by exists amps.
Defined.

(** ** How a run ends *)

Lemma stops_ret {A} (a : A) : stops_with_one (mret a).
Proof. intros log0 log s H. done. Qed.

Lemma stops_bind {A B} (m : Run A) (f : A → Run B) :
  stops_with_one m → (∀ a, stops_with_one (f a)) → stops_with_one (m ≫= f).
Proof.
  intros Hm Hf log0 log s. unfold mbind, run_bind.
  destruct (m log0) as [log1 [a|s']] eqn:E; intros Hrun.
  - eapply Hf; eauto.
  - injection Hrun as _ <-. eauto.
Qed.

Lemma stops_print (msg : Msg) : stops_with_one (print msg).
Proof. intros log0 log s H. done. Qed.

Lemma stops_emit (e : Event) : stops_with_one (emit e).
Proof. intros log0 log s H. done. Qed.

Lemma stops_sys_exit_one {A} : stops_with_one (@sys_exit A 1).
Proof. intros log0 log s [= _ <-]. done. Qed.

Lemma stops_raise {A} e : stops_with_one (@raise A e).
Proof. intros log0 log s [= _ <-]. done. Qed.

Lemma stops_propagate {A} (r : result A) : stops_with_one (propagate r).
Proof. destruct r; [apply stops_ret|apply stops_raise]. Qed.

Lemma stops_when b (m : Run unit) : stops_with_one m → stops_with_one (when b m).
Proof. destruct b; [done|]. intros _. apply stops_ret. Qed.

Create HintDb stops.
#[local] Hint Resolve stops_ret stops_bind stops_print stops_emit
  stops_sys_exit_one stops_raise stops_propagate stops_when : stops.

Lemma read_file_next env acc f log :
  ∃ warnings st positions,
    read_file env acc f log = (log ++ warnings, Next (st, positions))
    ∧ Forall (is_warning [f]) warnings
    ∧ (length warnings <= 2)%nat
    ∧ (∃ more, st = fst acc ++ more)
    ∧ (∀ key, is_Some (snd acc !! key) → is_Some (positions !! key))
    ∧ (HAS_SEGYIO env = false → positions = snd acc).
Proof.
  assert (∀ fn, fn = path f →
            is_warning [f] (Printed (WarnSegy fn)) ∧ is_warning [f] (Printed (WarnRead fn)))
    as Hw.
  { intros fn ->. split; exists f; (split; [by left|auto]). }
  destruct (Hw _ eq_refl) as [Hs Hr].
  unfold read_file, print, emit, mbind, run_bind, mret, run_ret.
  destruct (is_segy_name (path f) && HAS_SEGYIO env) eqn:Eseg.
  - apply andb_true_iff in Eseg as [_ Hhas].
    destruct (segy_to_stream (HAS_SEGYIO env) (segy_content f)) as [[s2 pos2]|e].
    + exists [], (fst acc ++ s2), (pos2 ∪ snd acc). rewrite app_nil_r.
      split; [done|]. split; [done|]. split; [cbn; lia|].
      split; [eauto|]. split; [|congruence].
      intros key [v Hv]. rewrite lookup_union, Hv. by destruct (pos2 !! key).
    + destruct (obspy_read f) as [s|e'].
      * exists [Printed (WarnSegy (path f))], (fst acc ++ s), (snd acc).
        split; [done|]. split; [by repeat constructor|]. split; [cbn; lia|]. eauto.
      * exists [Printed (WarnSegy (path f)); Printed (WarnRead (path f))],
          (fst acc), (snd acc).
        rewrite <- app_assoc. destruct acc. split; [done|].
        split; [by repeat constructor|]. split; [cbn; lia|].
        split; [exists []; by rewrite app_nil_r|done].
  - destruct (obspy_read f) as [s|e'].
    + exists [], (fst acc ++ s), (snd acc). rewrite app_nil_r.
      split; [done|]. split; [done|]. split; [cbn; lia|]. eauto.
    + exists [Printed (WarnRead (path f))], (fst acc), (snd acc). destruct acc.
      split; [done|]. split; [by repeat constructor|]. split; [cbn; lia|].
      split; [exists []; by rewrite app_nil_r|done].
Qed.

Lemma read_files_next (env : Env) (fs : list WaveformFile)
    (acc : Stream * Positions) (log : list Event) :
  ∃ warnings st positions,
    read_files env fs acc log = (log ++ warnings, Next (st, positions))
    ∧ Forall (is_warning fs) warnings
    ∧ (length warnings <= 2 * length fs)%nat
    ∧ (∃ more, st = fst acc ++ more)
    ∧ (∀ key, is_Some (snd acc !! key) → is_Some (positions !! key))
    ∧ (HAS_SEGYIO env = false → positions = snd acc).
Proof.
  revert acc log. induction fs as [|f rest IH]; intros acc log; cbn [read_files].
  - exists [], (fst acc), (snd acc). rewrite app_nil_r. destruct acc.
    split; [done|]. split; [done|]. split; [done|].
    split; [exists []; by rewrite app_nil_r|done].
  - destruct (read_file_next env acc f log)
      as (w1 & st1 & pos1 & Hrun1 & Hw1 & Hlen1 & [more1 Hst1] & Hkeys1 & Hno1).
    rewrite (run_bind_next _ _ _ _ _ Hrun1).
    destruct (IH (st1, pos1) (log ++ w1))
      as (w2 & st2 & pos2 & Hrun2 & Hw2 & Hlen2 & [more2 Hst2] & Hkeys2 & Hno2).
    exists (w1 ++ w2), st2, pos2. rewrite app_assoc.
    split; [done|]. split; [|split; [|split; [|split]]].
    + apply Forall_app. split.
      * eapply Forall_impl; [exact Hw1|]. intros e (f' & Hin & He).
        apply list_elem_of_singleton in Hin as ->. exists f. split; [by left|done].
      * eapply Forall_impl; [exact Hw2|]. intros e (f' & Hin & He).
        exists f'. split; [by right|done].
    + rewrite length_app. cbn [length]. lia.
    + cbn [fst] in Hst2. exists (more1 ++ more2). by rewrite Hst2, Hst1, app_assoc.
    + intros key Hkey. apply Hkeys2, Hkeys1, Hkey.
    + intros Hhas. cbn [snd] in Hno2. by rewrite Hno2, Hno1.
Qed.

(** X5: the read loop never stops the run: whatever the files hold, it
    ends with a stream and positions, has printed nothing but one warning
    per failed reader, has kept every trace and every station key it had
    already, and, without segyio, has added no position. *)
Theorem read_files_continues (env : Env) (fs : list WaveformFile)
    (acc : Stream * Positions) (log : list Event) :
  ∃ warnings st positions,
    read_files env fs acc log = (log ++ warnings, Next (st, positions))
    ∧ Forall (is_warning fs) warnings
    ∧ (length warnings <= 2 * length fs)%nat
    ∧ (∃ more, st = fst acc ++ more)
    ∧ (∀ key, is_Some (snd acc !! key) → is_Some (positions !! key))
    ∧ (HAS_SEGYIO env = false → positions = snd acc).
Proof. apply read_files_next. Qed.

Section Endings.

Context (float_of_string : string → option Q).
Context (astype_float32 : Q → Q).

Lemma stops_read_files env fs acc : stops_with_one (read_files env fs acc).
Proof.
  intros log0 log s H.
  destruct (read_files_next env fs acc log0) as (? & ? & ? & Hrun & _).
  congruence.
Qed.

Lemma stops_setup env : stops_with_one (setup float_of_string env).
Proof.
  unfold setup, station_positions.
  repeat first
    [ apply stops_read_files
    | apply stops_bind; [|intros ?]
    | progress auto with stops
    | match goal with
      | |- stops_with_one (let '(_, _) := ?x in _) => destruct x
      | |- stops_with_one (match ?x with _ => _ end) => destruct x
      end ].
Qed.

Lemma stops_render env st positions start stop :
  stops_with_one (render astype_float32 env st positions start stop).
Proof.
  unfold render.
  repeat first
    [ apply stops_bind; [|intros ?]
    | progress auto with stops
    | match goal with
      | |- stops_with_one (let '(_, _) := ?x in _) => destruct x
      | |- stops_with_one (match ?x with _ => _ end) => destruct x
      end ].
Qed.

Lemma render_next env st positions start stop log log' u :
  render astype_float32 env st positions start stop log = (log', Next u) →
  ∃ n, log' = log ++ [CallPrepare; Printed (Creating n); CallAnimation; Printed Done].
Proof.
  unfold render, emit, when, print, emit, sys_exit, raise, mbind, run_bind, mret, run_ret.
  destruct (prepare_meta _ _ _ _ _ _) as [[[traces grid] meta]|[]]; try done.
  destruct (bool_decide (station_keys meta = [])); [done|].
  destruct (animation env) as [[]|[]]; try done.
  intros [= <- _]. exists (length grid). by rewrite <- !app_assoc.
Qed.

Lemma main_from_setup env log st positions start stop :
  setup float_of_string env [] = (log, Next (st, positions, start, stop)) →
  main float_of_string astype_float32 env []
  = (safety_checks env positions start stop
     ≫= fun _ => render astype_float32 env st positions start stop) log.
Proof. intros H. unfold main. by rewrite (run_bind_next _ _ _ _ _ H). Qed.

Lemma safety_checks_within env positions start stop n log :
  n_frames_of start stop (time_step env) = Ok n →
  (0 < n <= max_frames env)%Z →
  est_mb_of (est_bytes_of n (n_stations_of positions)) * safety_multiplier
  <= inject_Z (max_mem_mb env) →
  safety_checks env positions start stop log
  = if dry_run env
    then (log ++ [Printed (Generating n (n_stations_of positions)); Printed DryRun],
          Halt (SysExit 0))
    else (log ++ [Printed (Generating n (n_stations_of positions))], Next tt).
Proof.
  intros Hn [Hpos Hmax] Hmem. unfold safety_checks. rewrite Hn.
  unfold propagate, when, print, emit, sys_exit, mbind, run_bind, mret, run_ret.
  destruct (Z.leb_spec n 0) as [?|_]; [lia|].
  destruct (Z.ltb_spec (max_frames env) n) as [?|_]; [lia|].
  assert (Qltb (inject_Z (max_mem_mb env))
               (est_mb_of (est_bytes_of n (n_stations_of positions)) * safety_multiplier)
          = false) as -> by by apply Qltb_ge.
  destruct (dry_run env); [by rewrite <- app_assoc|done].
Qed.

Lemma safety_checks_halt env positions start stop log log' s :
  safety_checks env positions start stop log = (log', Halt s) →
  exit_status s = 1%Z
  ∨ (s = SysExit 0 ∧ dry_run env = true
     ∧ ∃ n k, log' = log ++ [Printed (Generating n k); Printed DryRun]).
Proof.
  unfold safety_checks.
  destruct (n_frames_of start stop (time_step env)) as [n|e];
    unfold propagate, raise, when, print, emit, sys_exit, mbind, run_bind, mret, run_ret.
  - destruct (n <=? 0)%Z; [intros [= _ <-]; by left|].
    destruct (max_frames env <? n)%Z; [intros [= _ <-]; by left|].
    destruct (Qltb _ _); [intros [= _ <-]; by left|].
    destruct (dry_run env); [|done]. intros [= <- <-]. right.
    split; [done|]. split; [done|]. eexists _, _. by rewrite <- app_assoc.
  - intros [= _ <-]. by left.
Qed.

(** X6: a dry run whose estimates are within the two ceilings prints the
    estimate and the dry-run notice and exits with status 0; neither
    [prepare_meta] nor [make_animation] is entered. *)
Theorem dry_run_reports_and_exits (env : Env) (log : list Event) (st : Stream)
    (positions : Positions) (start stop : Q) (n : Z) :
  setup float_of_string env [] = (log, Next (st, positions, start, stop)) →
  n_frames_of start stop (time_step env) = Ok n →
  (0 < n <= max_frames env)%Z →
  spec_scaled_mib n (size positions) <= inject_Z (max_mem_mb env) →
  dry_run env = true →
  run_main float_of_string astype_float32 env
  = (log ++ [Printed (Generating n (Z.of_nat (size positions))); Printed DryRun],
     SysExit 0)
  ∧ (CallPrepare ∉ fst (run_main float_of_string astype_float32 env))
  ∧ (CallAnimation ∉ fst (run_main float_of_string astype_float32 env)).
Proof.
  intros Hsetup Hn Hrange Hmem Hdry.
  pose proof (setup_positions_nonempty _ _ _ _ _ _ _ _ Hsetup) as Hsize.
  rewrite <- (scaled_estimate n positions Hsize) in Hmem.
  pose proof (safety_checks_within env positions start stop n log Hn Hrange Hmem)
    as Hchecks.
  rewrite Hdry in Hchecks.
  assert (n_stations_of positions = Z.of_nat (size positions)) as Hk
    by (unfold n_stations_of; lia).
  rewrite Hk in Hchecks.
  assert (run_main float_of_string astype_float32 env
          = (log ++ [Printed (Generating n (Z.of_nat (size positions))); Printed DryRun],
             SysExit 0)) as ->.
  { unfold run_main. rewrite (main_from_setup _ _ _ _ _ _ Hsetup).
    by rewrite (run_bind_halt _ _ _ _ _ Hchecks). }
  split; [done|]. cbn [fst].
  assert (Forall (fun e => is_print e = true)
            (log ++ [Printed (Generating n (Z.of_nat (size positions))); Printed DryRun]))
    as Hall.
  { apply Forall_app. split; [|by repeat constructor].
    eapply only_prints_setup; eauto. }
  rewrite Forall_forall in Hall.
  split; intros Hin; by apply Hall in Hin.
Qed.


End Endings.

Lemma dry_run_reports_and_exits_witness :
  ∃ log,
    setup decimal_literal env_dry_run []
    = (log, Next ([trace_xx_abc], {[ "XX.ABC" := (45.1, -123.4) ]},
                  946684800, 946684800 + inject_Z (8 - 1) * (1 / 1)))
    ∧ run_main decimal_literal (fun x => x) env_dry_run
      = (log ++ [Printed (Generating 7 1); Printed DryRun], SysExit 0).
Proof.
  exists [Printed (FoundFiles 1)].
  assert (setup decimal_literal env_dry_run []
          = ([Printed (FoundFiles 1)],
             Next ([trace_xx_abc], {[ "XX.ABC" := (45.1, -123.4) ]},
                   946684800, 946684800 + inject_Z (8 - 1) * (1 / 1)))) as Hsetup
    by (vm_compute; reflexivity).
  split; [exact Hsetup|].
  refine (proj1 (dry_run_reports_and_exits decimal_literal (fun x => x) env_dry_run
                   _ _ _ _ _ 7 Hsetup _ _ _ _)).
  - reflexivity.
  - split; [reflexivity|]. cbn. lia.
  - unfold Qle. vm_compute. discriminate.
  - reflexivity.
Defined.

(** ** The default window and the fatal preconditions *)

Lemma py_min_list_spec (l : list Q) (x : Q) :
  (py_min_list x l <= x ∧ ∀ y, y ∈ l → py_min_list x l <= y)
  ∧ (py_min_list x l = x ∨ py_min_list x l ∈ l).
Proof.
  unfold py_min_list. revert x. induction l as [|y rest IH]; intros x; cbn [foldl].
  - split; [split; [lra|intros y Hy; inversion Hy]|by left].
  - destruct (IH (if Qltb y x then y else x)) as [[Hle Hall] Hmem].
    destruct (Qltb y x) eqn:E.
    + apply Qltb_lt in E. split; [split; [lra|]|].
      * intros z Hz. apply elem_of_cons in Hz as [->|Hz]; [done|by apply Hall].
      * right. destruct Hmem as [->|Hmem]; [by left|by right].
    + apply Qltb_ge in E. split; [split; [done|]|].
      * intros z Hz. apply elem_of_cons in Hz as [->|Hz]; [lra|by apply Hall].
      * destruct Hmem as [->|Hmem]; [by left|right; by right].
Qed.

Lemma py_max_list_spec (l : list Q) (x : Q) :
  (x <= py_max_list x l ∧ ∀ y, y ∈ l → y <= py_max_list x l)
  ∧ (py_max_list x l = x ∨ py_max_list x l ∈ l).
Proof.
  unfold py_max_list. revert x. induction l as [|y rest IH]; intros x; cbn [foldl].
  - split; [split; [lra|intros y Hy; inversion Hy]|by left].
  - destruct (IH (if Qltb x y then y else x)) as [[Hle Hall] Hmem].
    destruct (Qltb x y) eqn:E.
    + apply Qltb_lt in E. split; [split; [lra|]|].
      * intros z Hz. apply elem_of_cons in Hz as [->|Hz]; [done|by apply Hall].
      * right. destruct Hmem as [->|Hmem]; [by left|by right].
    + apply Qltb_ge in E. split; [split; [done|]|].
      * intros z Hz. apply elem_of_cons in Hz as [->|Hz]; [lra|by apply Hall].
      * destruct Hmem as [->|Hmem]; [by left|right; by right].
Qed.

Section Windows.

Context (float_of_string : string → option Q).
Context (astype_float32 : Q → Q).

Lemma setup_inv env log0 log st positions start stop :
  setup float_of_string env log0 = (log, Next (st, positions, start, stop)) →
  match arg_start env, st with
  | Some t, _ => start = t
  | None, [] => False
  | None, tr :: rest =>
      start = py_min_list (starttime (stats tr))
                          (map (fun tr => starttime (stats tr)) rest)
  end
  ∧ match arg_end env, st with
    | Some t, _ => stop = t
    | None, [] => False
    | None, tr :: rest => stop = py_max_list (endtime tr) (map endtime rest)
    end.
Proof.
  unfold setup. intros H.
  apply run_bind_inv in H as (u1 & log1 & _ & H).
  apply run_bind_inv in H as (u2 & log2 & _ & H).
  apply run_bind_inv in H as ([st' positions'] & log3 & _ & H).
  apply run_bind_inv in H as (u3 & log4 & _ & H).
  apply run_bind_inv in H as (start' & log5 & Hstart & H).
  apply run_bind_inv in H as (stop' & log6 & Hstop & H).
  unfold mret, run_ret in H. simplify_eq. split.
  - destruct (arg_start env), st; unfold mret, run_ret, raise in Hstart;
      by simplify_eq.
  - destruct (arg_end env), st; unfold mret, run_ret, raise in Hstop;
      by simplify_eq.
Qed.

(** X8: a window bound given on the command line is used as it is; a
    bound left out is taken from the stream: the start is the earliest
    trace start and the end the latest trace end, so every trace lies
    within the default window. *)
Theorem default_window_spans_traces (env : Env) (log : list Event)
    (st : Stream) (positions : Positions) (start stop : Q) :
  setup float_of_string env [] = (log, Next (st, positions, start, stop)) →
  (∀ t, arg_start env = Some t → start = t)
  ∧ (∀ t, arg_end env = Some t → stop = t)
  ∧ (arg_start env = None →
     (∀ tr, tr ∈ st → start <= starttime (stats tr))
     ∧ ∃ tr, tr ∈ st ∧ start = starttime (stats tr))
  ∧ (arg_end env = None →
     (∀ tr, tr ∈ st → endtime tr <= stop)
     ∧ ∃ tr, tr ∈ st ∧ stop = endtime tr).
Proof.
  intros Hsetup. apply setup_inv in Hsetup as [Hstart Hstop].
  split; [|split; [|split]].
  - intros t Ht. rewrite Ht in Hstart. by destruct st.
  - intros t Ht. rewrite Ht in Hstop. by destruct st.
  - intros Hnone. rewrite Hnone in Hstart. destruct st as [|tr rest]; [done|].
    destruct (py_min_list_spec (map (fun tr => starttime (stats tr)) rest)
                (starttime (stats tr))) as [[Hx Hall] Hmem].
    rewrite <- Hstart in Hx, Hall, Hmem. split.
    + intros tr' Hin. apply elem_of_cons in Hin as [->|Hin]; [done|].
      apply Hall. apply list_elem_of_fmap. eauto.
    + destruct Hmem as [Hm|Hm].
      * exists tr. split; [by left|done].
      * apply list_elem_of_fmap in Hm as (tr' & Heq & Hin).
        exists tr'. split; [by right|done].
  - intros Hnone. rewrite Hnone in Hstop. destruct st as [|tr rest]; [done|].
    destruct (py_max_list_spec (map endtime rest) (endtime tr)) as [[Hx Hall] Hmem].
    rewrite <- Hstop in Hx, Hall, Hmem. split.
    + intros tr' Hin. apply elem_of_cons in Hin as [->|Hin]; [done|].
      apply Hall. apply list_elem_of_fmap. eauto.
    + destruct Hmem as [Hm|Hm].
      * exists tr. split; [by left|done].
      * apply list_elem_of_fmap in Hm as (tr' & Heq & Hin).
        exists tr'. split; [by right|done].
Qed.

Lemma setup_from_positions env log st positions :
  files env ≠ [] →
  station_positions float_of_string env [Printed (FoundFiles (length (files env)))]
  = (log, Next (st, positions)) →
  setup float_of_string env []
  = (when (bool_decide (size positions = 0%nat))
          (print NoPositions;; sys_exit 1)
     ≫= fun _ =>
     start ← match arg_start env, st with
             | Some t, _ => mret t
             | None, [] => raise ValueError
             | None, tr :: rest =>
                 mret (py_min_list (starttime (stats tr))
                                   (map (fun tr => starttime (stats tr)) rest))
             end;
     stop ← match arg_end env, st with
            | Some t, _ => mret t
            | None, [] => raise ValueError
            | None, tr :: rest => mret (py_max_list (endtime tr) (map endtime rest))
            end;
     mret (st, positions, start, stop)) log.
Proof.
  intros Hfiles Hpos. unfold setup at 1.
  rewrite (run_bind_next _ _ [] [] tt).
  2:{ unfold when. by rewrite bool_decide_false. }
  rewrite (run_bind_next _ _ [] [Printed (FoundFiles (length (files env)))] tt) by done.
  by rewrite (run_bind_next _ _ _ _ _ Hpos).
Qed.

(** X9: the two discovery failures end the run with exit status 1 and one
    printed line: no waveform file at all, and an empty position mapping
    after the files and the station metadata have been read. *)
Theorem discovery_failures_exit_one (env : Env) :
  (files env = [] →
   run_main float_of_string astype_float32 env
   = ([Printed NoWaveformFiles], SysExit 1))
  ∧ (∀ log st positions,
       files env ≠ [] →
       station_positions float_of_string env
         [Printed (FoundFiles (length (files env)))]
       = (log, Next (st, positions)) →
       size positions = 0%nat →
       run_main float_of_string astype_float32 env
       = (log ++ [Printed NoPositions], SysExit 1)).
Proof.
  split.
  - intros Hfiles. unfold run_main, main, setup. by rewrite Hfiles.
  - intros log st positions Hfiles Hpos Hsize.
    assert (setup float_of_string env []
            = (log ++ [Printed NoPositions], Halt (SysExit 1))) as Hsetup.
    { rewrite (setup_from_positions _ _ _ _ Hfiles Hpos).
      unfold when. by rewrite bool_decide_true. }
    unfold run_main, main. by rewrite (run_bind_halt _ _ _ _ _ Hsetup).
Qed.

(** X10: when no trace could be read, the positions are not empty and
    [--start] or [--end] is left out, the run ends with an uncaught
    [ValueError] (the minimum or maximum of an empty list), exit status 1,
    without a printed line of its own. *)
Theorem missing_window_without_traces (env : Env) (log : list Event)
    (positions : Positions) :
  files env ≠ [] →
  station_positions float_of_string env [Printed (FoundFiles (length (files env)))]
  = (log, Next ([], positions)) →
  size positions ≠ 0%nat →
  arg_start env = None ∨ arg_end env = None →
  run_main float_of_string astype_float32 env = (log, Uncaught ValueError).
Proof.
  intros Hfiles Hpos Hsize Hmissing.
  assert (setup float_of_string env [] = (log, Halt (Uncaught ValueError))) as Hsetup.
  { rewrite (setup_from_positions _ _ _ _ Hfiles Hpos).
    unfold when. rewrite bool_decide_false by done.
    destruct Hmissing as [H|H].
    - by rewrite H.
    - rewrite H. by destruct (arg_start env). }
  unfold run_main, main. by rewrite (run_bind_halt _ _ _ _ _ Hsetup).
Qed.

End Windows.

Lemma default_window_spans_traces_witness :
  ∃ log st positions start stop,
    setup decimal_literal env_dry_run [] = (log, Next (st, positions, start, stop))
    ∧ arg_start env_dry_run = None
    ∧ ∀ tr, tr ∈ st → start <= starttime (stats tr).
Proof.
  eexists _, _, _, _, _.
  assert (setup decimal_literal env_dry_run []
          = ([Printed (FoundFiles 1)],
             Next ([trace_xx_abc], {[ "XX.ABC" := (45.1, -123.4) ]},
                   946684800, 946684800 + inject_Z (8 - 1) * (1 / 1)))) as Hsetup
    by (vm_compute; reflexivity).
  split; [exact Hsetup|]. split; [reflexivity|].
  apply (default_window_spans_traces decimal_literal env_dry_run _ _ _ _ _ Hsetup).
  reflexivity.
Defined.

Lemma discovery_failures_exit_one_witness :
  files (mkEnv false [] None None None None 1 10 10 false (Ok tt)) = []
  ∧ run_main decimal_literal (fun x => x)
      (mkEnv false [] None None None None 1 10 10 false (Ok tt))
    = ([Printed NoWaveformFiles], SysExit 1).
Proof.
  split; [reflexivity|].
  apply (discovery_failures_exit_one decimal_literal (fun x => x)). reflexivity.
Defined.

Lemma missing_window_without_traces_witness :
  files env_unreadable ≠ []
  ∧ arg_start env_unreadable = None
  ∧ run_main decimal_literal (fun x => x) env_unreadable
    = ([Printed (FoundFiles 1); Printed (WarnRead "broken.mseed")],
       Uncaught ValueError).
Proof.
  split; [done|]. split; [reflexivity|].
  apply (missing_window_without_traces decimal_literal (fun x => x) env_unreadable
           _ {[ "XX.ABC" := (45.1, -123.4) ]}).
  - done.
  - vm_compute. reflexivity.
  - by vm_compute.
  - by left.
Defined.

(** ** The inventory *)

Lemma insert_fold_lookup (l : list (string * (Q * Q))) (d : Positions)
    (key : string) (pos : Q * Q) :
  foldl (fun d e => <[fst e := snd e]> d) d l !! key = Some pos
  ↔ (∃ pre post, l = pre ++ (key, pos) :: post ∧ key ∉ map fst post)
    ∨ (d !! key = Some pos ∧ key ∉ map fst l).
Proof.
  revert d. induction l as [|[k v] rest IH]; intros d; cbn [foldl map fst snd].
  - split.
    + intros H. right. split; [done|]. intros Hin. inversion Hin.
    + intros [(pre & post & Heq & _)|[H _]]; [by destruct pre|done].
  - rewrite IH. clear IH. split.
    + intros [(pre & post & -> & Hpost)|[Hd Hnone]].
      * left. by exists ((k, v) :: pre), post.
      * destruct (decide (k = key)) as [->|Hne].
        -- left. rewrite lookup_insert_eq in Hd. injection Hd as ->.
           by exists [], rest.
        -- right. rewrite lookup_insert_ne in Hd by done. split; [done|].
           intros Hin. apply elem_of_cons in Hin as [?|?]; [congruence|done].
    + intros [(pre & post & Heq & Hpost)|[Hd Hnone]].
      * destruct pre as [|x pre]; injection Heq as ? ?; simplify_eq.
        -- right. by rewrite lookup_insert_eq.
        -- left. by exists pre, post.
      * right. rewrite not_elem_of_cons in Hnone. destruct Hnone as [Hne Hnone].
        by rewrite lookup_insert_ne.
Qed.

Lemma inventory_as_fold (inv : Inventory) (d : Positions) :
  foldl (fun d net =>
           foldl (fun d sta =>
                    <[net_code net +:+ "." +:+ sta_code sta
                      := (latitude sta, longitude sta)]> d)
                 d (stations net))
        d inv
  = foldl (fun d e => <[fst e := snd e]> d) d (inventory_entries inv).
Proof.
  revert d. induction inv as [|net rest IH]; intros d; [done|].
  cbn [foldl inventory_entries flat_map]. rewrite foldl_app, IH. f_equal.
  generalize (stations net). intros stas. revert d.
  induction stas as [|sta stas IHs]; intros d; [done|]. cbn. by rewrite IHs.
Qed.

(** X11: [inventory_to_positions] gives every listed station a position
    under [network.station], and a key maps to the position of the last
    station listed under it. *)
Theorem inventory_positions_last_listed (inv : Inventory) :
  (∀ key pos,
     inventory_to_positions inv !! key = Some pos
     ↔ ∃ pre post, inventory_entries inv = pre ++ (key, pos) :: post
                   ∧ key ∉ map fst post)
  ∧ (∀ net sta, net ∈ inv → sta ∈ stations net →
       is_Some (inventory_to_positions inv
                !! (net_code net +:+ "." +:+ sta_code sta))).
Proof.
  assert (∀ key pos,
     inventory_to_positions inv !! key = Some pos
     ↔ ∃ pre post, inventory_entries inv = pre ++ (key, pos) :: post
                   ∧ key ∉ map fst post) as Hlookup.
  { intros key pos. unfold inventory_to_positions.
    rewrite inventory_as_fold, insert_fold_lookup.
    split; [|by left]. intros [H|[H _]]; [done|]. by rewrite lookup_empty in H. }
  split; [done|]. intros net sta Hnet Hsta.
  set (key := net_code net +:+ "." +:+ sta_code sta).
  assert (key ∈ map fst (inventory_entries inv)) as Hin.
  { apply list_elem_of_fmap.
    exists (key, (latitude sta, longitude sta)). split; [done|].
    unfold inventory_entries. apply list_elem_of_In, in_flat_map.
    exists net. split; [by apply list_elem_of_In|].
    apply list_elem_of_In, list_elem_of_fmap. by exists sta. }
  clear Hnet Hsta.
  assert (∀ l : list (string * (Q * Q)), key ∈ map fst l →
            ∃ pre pos post, l = pre ++ (key, pos) :: post ∧ key ∉ map fst post)
    as Hlast.
  { induction l as [|[k v] rest IH]; intros Hl; [inversion Hl|].
    destruct (decide (key ∈ map fst rest)) as [Hrest|Hrest].
    - destruct (IH Hrest) as (pre & pos & post & -> & Hpost).
      by exists ((k, v) :: pre), pos, post.
    - cbn in Hl. apply elem_of_cons in Hl as [->|?]; [|done].
      by exists [], v, rest. }
  destruct (Hlast _ Hin) as (pre & pos & post & Heq & Hpost).
  exists pos. apply Hlookup. eauto.
Qed.

(** ** SEG-Y files: empty files, the picked scale and the station keys *)

(** X12: a SEG-Y file without records makes [segy_to_stream] raise (the
    score divides by the number of records); the read loop prints its
    warning and hands the file to ObsPy's [read] instead. *)
Theorem empty_segy_falls_back (env : Env) (acc : Stream * Positions)
    (file : WaveformFile) (f : SegyFile) (log : list Event) :
  HAS_SEGYIO env = true → is_segy_name (path file) = true →
  segy_content file = Ok f → records f = [] →
  segy_to_stream true (Ok f) = Raise ZeroDivisionError
  ∧ read_file env acc file log
    = match obspy_read file with
      | Ok s => (log ++ [Printed (WarnSegy (path file))],
                 Next (fst acc ++ s, snd acc))
      | Raise _ => (log ++ [Printed (WarnSegy (path file));
                            Printed (WarnRead (path file))], Next acc)
      end.
Proof.
  intros Hhas Hname Hcontent Hrec.
  assert (segy_to_stream true (Ok f) = Raise ZeroDivisionError) as Hraise.
  { unfold segy_to_stream. cbn [negb mbind result_bind]. by rewrite Hrec. }
  split; [done|].
  unfold read_file. rewrite Hname, Hhas, Hcontent, Hraise. cbn [andb].
  unfold print, emit, mbind, run_bind, mret, run_ret.
  destruct (obspy_read file); [done|]. by rewrite <- app_assoc.
Qed.

Lemma empty_segy_falls_back_witness :
  segy_to_stream true (Ok (mkSegyFile None [])) = Raise ZeroDivisionError
  ∧ read_file env_segy_then_xml ([], ∅)
      (mkFile "empty.SGY" (Ok (mkSegyFile None [])) (Ok [single_sample_trace])) []
    = ([Printed (WarnSegy "empty.SGY")], Next ([single_sample_trace], ∅)).
Proof.
  apply (empty_segy_falls_back env_segy_then_xml ([], ∅)
           (mkFile "empty.SGY" (Ok (mkSegyFile None [])) (Ok [single_sample_trace]))
           (mkSegyFile None []) []); reflexivity.
Defined.

Lemma ok_array_records (f : SegyFile) (sc : Q) :
  ok_array (segy_gx f) (segy_gy f) sc
  = map (fun r => valid_position (segy_position sc r)) (records f).
Proof.
  unfold ok_array, segy_gx, segy_gy. induction (records f) as [|r rest IH]; [done|].
  cbn [map zip_with]. by rewrite IH.
Qed.

Lemma count_true_map {A} (p : A → bool) (l : list A) :
  length (filter (fun b => b = true) (map p l))
  = length (filter (fun x => p x = true) l).
Proof.
  induction l as [|x rest IH]; [done|]. cbn [map].
  rewrite !filter_cons. destruct (decide (p x = true)); cbn [length]; by rewrite IH.
Qed.



Lemma digit_value (d : N) (rest : string) (acc : N) :
  (d < 10)%N →
  digits_value (String (Str.digit (N.to_nat d)) rest) acc
  = digits_value rest (acc * 10 + d)%N.
Proof.
  intros Hd. cbn [digits_value]. unfold Str.digit.
  rewrite nat_ascii_embedding by lia.
  destruct (Nat.leb_spec 48 (48 + N.to_nat d)) as [_|?]; [|lia].
  destruct (Nat.leb_spec (48 + N.to_nat d) 57) as [_|?]; [|lia].
  cbn [andb]. f_equal. lia.
Qed.

Lemma digits_fuel_value (fuel : nat) (n : N) (acc : string) :
  (n < 10 ^ N.of_nat fuel)%N →
  ∃ k, ∀ a, digits_value (Str.digits_fuel fuel n acc) a
            = digits_value acc (a * 10 ^ k + n)%N.
Proof.
  revert n acc. induction fuel as [|fuel IH]; intros n acc Hn.
  - exists 0%N. intros a. cbn [Str.digits_fuel]. f_equal.
    change (10 ^ N.of_nat 0)%N with 1%N in Hn. lia.
  - cbn [Str.digits_fuel].
    assert (n mod 10 < 10)%N as Hmod by (apply N.mod_lt; lia).
    pose proof (N.div_mod n 10) as Hdm.
    destruct (N.eqb_spec (n / 10) 0) as [Hz|Hnz].
    + exists 1%N. intros a. rewrite digit_value by done. f_equal.
      change (10 ^ 1)%N with 10%N. lia.
    + destruct (IH (n / 10)%N (String (Str.digit (N.to_nat (n mod 10))) acc))
        as [k Hk].
      { apply N.Div0.div_lt_upper_bound.
        rewrite Nat2N.inj_succ, N.pow_succ_r' in Hn. lia. }
      exists (N.succ k). intros a. rewrite Hk, digit_value by done. f_equal.
      rewrite N.pow_succ_r'. lia.
Qed.

Lemma decimal_value (n : N) : digits_value (Str.decimal n) 0 = Some n.
Proof.
  unfold Str.decimal.
  destruct (digits_fuel_value (S (N.to_nat (N.log2 n))) n EmptyString) as [k Hk].
  - rewrite Nat2N.inj_succ, N2Nat.id.
    destruct (N.eq_dec n 0%N) as [->|Hn]; [done|].
    destruct (N.log2_spec n) as [_ Hlt]; [lia|].
    eapply N.lt_le_trans; [exact Hlt|]. apply N.pow_le_mono_l. lia.
  - rewrite Hk. cbn [digits_value]. by rewrite N.mul_0_l, N.add_0_l.
Qed.

Lemma zeros_value (k : nat) (s : string) :
  digits_value (Str.zeros k ++ s) 0 = digits_value s 0.
Proof. induction k as [|k IH]; [done|]. cbn. exact IH. Qed.

Lemma digits_fuel_head (fuel : nat) (n : N) (acc : string) :
  (∃ d rest, (d < 10)%nat ∧ acc = String (Str.digit d) rest) →
  ∃ d rest, (d < 10)%nat ∧ Str.digits_fuel fuel n acc = String (Str.digit d) rest.
Proof.
  revert n acc. induction fuel as [|fuel IH]; intros n acc Hacc; [done|].
  cbn [Str.digits_fuel].
  assert (∃ d rest, (d < 10)%nat
            ∧ String (Str.digit (N.to_nat (n mod 10))) acc = String (Str.digit d) rest)
    as Hhead.
  { exists (N.to_nat (n mod 10)), acc. split; [|done].
    pose proof (N.mod_lt n 10). lia. }
  destruct (n / 10 =? 0)%N; [done|by apply IH].
Qed.

Lemma padded_head (k : nat) (n : N) :
  ∃ d rest, (d < 10)%nat ∧ (Str.zeros k ++ Str.decimal n)%string = String (Str.digit d) rest.
Proof.
  destruct k as [|k].
  - cbn [Str.zeros String.append]. unfold Str.decimal. cbn [Str.digits_fuel].
    assert (∃ d rest, (d < 10)%nat
              ∧ String (Str.digit (N.to_nat (n mod 10))) EmptyString
                = String (Str.digit d) rest) as Hhead.
    { exists (N.to_nat (n mod 10)), EmptyString. split; [|done].
      pose proof (N.mod_lt n 10). lia. }
    destruct (n / 10 =? 0)%N; [done|by apply digits_fuel_head].
  - exists 0%nat. eexists. split; [lia|]. cbn. done.
Qed.

Lemma read_digits (d : nat) (rest : string) :
  (d < 10)%nat →
  read_05d (String (Str.digit d) rest)
  = Z.of_N <$> digits_value (String (Str.digit d) rest) 0.
Proof.
  intros Hd. do 10 (destruct d as [|d]; [done|]). lia.
Qed.

Lemma read_format_05d (n : Z) : read_05d (Str.format_05d n) = Some n.
Proof.
  unfold Str.format_05d. destruct (Z.ltb_spec n 0) as [Hneg|Hpos].
  - cbn [read_05d]. rewrite zeros_value, decimal_value. cbn. f_equal. lia.
  - destruct (padded_head (5 - String.length (Str.decimal (Z.abs_N n))) (Z.abs_N n))
      as (d & rest & Hd & Heq).
    rewrite Heq, read_digits by done. rewrite <- Heq, zeros_value, decimal_value.
    cbn. f_equal. lia.
Qed.

Lemma segy_key_injective i r j r' :
  segy_key i r = segy_key j r' → segy_trace_num i r = segy_trace_num j r'.
Proof.
  unfold segy_key, segy_name. intros H.
  assert (Str.format_05d (segy_trace_num i r) = Str.format_05d (segy_trace_num j r'))
    as Hfmt by (cbn in H; by simplify_eq).
  apply (f_equal read_05d) in Hfmt. rewrite !read_format_05d in Hfmt. congruence.
Qed.



(** ** The station keys of [prepare_meta] *)

Lemma dict_keys_set_in {V} (k : string) (v : V) (d : PyDict.t V) :
  k ∈ PyDict.keys d → PyDict.keys (PyDict.set k v d) = PyDict.keys d.
Proof.
  unfold PyDict.keys. induction d as [|[k' v'] rest IH]; intros Hin.
  - inversion Hin.
  - cbn [PyDict.set]. destruct (String.eqb_spec k k') as [->|Hne]; [done|].
    cbn [map fst] in *. apply elem_of_cons in Hin as [?|Hin]; [done|].
    by rewrite IH.
Qed.

Lemma dict_keys_set_new {V} (k : string) (v : V) (d : PyDict.t V) :
  k ∉ PyDict.keys d → PyDict.keys (PyDict.set k v d) = PyDict.keys d ++ [k].
Proof.
  unfold PyDict.keys. induction d as [|[k' v'] rest IH]; intros Hin; [done|].
  cbn [map fst] in Hin. apply not_elem_of_cons in Hin as [Hne Hin].
  cbn [PyDict.set]. destruct (String.eqb_spec k k') as [->|_]; [done|].
  cbn [map fst app]. by rewrite IH.
Qed.

Section StationKeys.

Context (astype_float32 : Q → Q).
Context (positions : Positions) (start stop : Q).

#[local] Abbreviation step := (prepare_step astype_float32 positions start stop).
#[local] Abbreviation kept := (prepared astype_float32 positions start stop).

Lemma prepare_fold_keys st acc :
  NoDup (PyDict.keys (fst acc)) → PyDict.keys (snd acc) = PyDict.keys (fst acc) →
  NoDup (PyDict.keys (fst (foldl step acc st)))
  ∧ PyDict.keys (snd (foldl step acc st)) = PyDict.keys (fst (foldl step acc st)).
Proof.
  revert acc. induction st as [|tr rest IH]; intros acc Hnd Hsame; [done|].
  cbn [foldl]. apply IH; rewrite prepare_step_prepared;
    destruct (kept tr) as [tr3|]; try done; cbn [fst snd];
    destruct (decide (stream_station_key tr ∈ PyDict.keys (fst acc))) as [Hin|Hnew].
  - by rewrite dict_keys_set_in.
  - rewrite dict_keys_set_new by done. apply NoDup_app. split; [done|].
    split; [|apply NoDup_singleton].
    intros k Hk Hk'. apply list_elem_of_singleton in Hk' as ->. done.
  - rewrite !dict_keys_set_in; [done|done|]. by rewrite Hsame.
  - rewrite !dict_keys_set_new; [by rewrite Hsame|done|]. by rewrite Hsame.
Qed.

Lemma prepare_fold_order st acc :
  NoDup (map stream_station_key st) →
  (∀ tr, tr ∈ st → stream_station_key tr ∉ PyDict.keys (fst acc)) →
  PyDict.keys (fst (foldl step acc st))
  = PyDict.keys (fst acc)
    ++ map stream_station_key (filter (fun tr => is_Some (kept tr)) st).
Proof.
  revert acc. induction st as [|tr rest IH]; intros acc Hnd Hfresh.
  - cbn. by rewrite app_nil_r.
  - cbn [map] in Hnd. apply NoDup_cons in Hnd as [Htr Hnd]. cbn [foldl].
    rewrite filter_cons.
    assert (stream_station_key tr ∉ PyDict.keys (fst acc)) as Hnew
      by (apply Hfresh; by left).
    rewrite prepare_step_prepared.
    destruct (kept tr) as [tr3|] eqn:Ek.
    + rewrite decide_True by done. rewrite IH; [|done|].
      * cbn [fst map]. rewrite dict_keys_set_new by done.
        by rewrite <- app_assoc.
      * intros tr' Hin. cbn [fst]. rewrite dict_keys_set_new by done.
        rewrite elem_of_app, list_elem_of_singleton.
        intros [Hold|Heq].
        -- revert Hold. apply Hfresh. by right.
        -- apply Htr. rewrite <- Heq. apply list_elem_of_fmap. eauto.
    + rewrite decide_False by (by intros [? ?]).
      apply IH; [done|]. intros tr' Hin. apply Hfresh. by right.
Qed.

End StationKeys.

Section KeyOrder.

Context (astype_float32 : Q → Q).

(** X15: the station keys [prepare_meta] returns hold no key twice, and
    the stored traces and the stored peaks have exactly these keys in this
    order; when no two traces of the stream share a station key, they are
    the keys of the kept traces in the order of the stream. *)
Theorem station_keys_first_seen (st : Stream) (positions : Positions)
    (start stop step : Q) (station_traces : PyDict.t Trace) (grid : list Q)
    (meta : Meta) :
  prepare_meta astype_float32 st positions start stop step
  = Ok (station_traces, grid, meta) →
  NoDup (station_keys meta)
  ∧ PyDict.keys station_traces = station_keys meta
  ∧ PyDict.keys (station_max meta) = station_keys meta
  ∧ (NoDup (map stream_station_key st) →
     station_keys meta
     = map stream_station_key
         (filter (fun tr => is_Some (prepared astype_float32 positions start stop tr))
                 st)).
Proof.
  intros Hrun. apply prepare_meta_inv in Hrun as (-> & -> & -> & _).
  unfold prepare_loop.
  destruct (prepare_fold_keys astype_float32 positions start stop st ([], []))
    as [Hnd Hsame]; [constructor|done|].
  split; [done|]. split; [done|]. split; [done|].
  intros Hst.
  rewrite (prepare_fold_order astype_float32 positions start stop st ([], []) Hst);
    [done|].
  intros tr _ Hin. inversion Hin.
Qed.

(** X16: called with a window whose end lies before its start,
    [prepare_meta] keeps no station: every trim raises and every trace is
    passed over. *)
Theorem reversed_window_keeps_nothing (st : Stream) (positions : Positions)
    (start stop step : Q) (station_traces : PyDict.t Trace) (grid : list Q)
    (meta : Meta) :
  stop < start →
  prepare_meta astype_float32 st positions start stop step
  = Ok (station_traces, grid, meta) →
  station_traces = [] ∧ station_keys meta = [] ∧ station_max meta = [].
Proof.
  intros Hrev Hrun. apply prepare_meta_inv in Hrun as (-> & -> & -> & _).
  assert (prepare_loop astype_float32 st positions start stop = ([], [])) as ->;
    [|done].
  unfold prepare_loop. generalize (([], []) : PyDict.t Trace * PyDict.t Q).
  induction st as [|tr rest IH]; intros acc; [done|].
  cbn [foldl]. rewrite prepare_step_prepared.
  assert (prepared astype_float32 positions start stop tr = None) as ->.
  { unfold prepared, ObsPy.trim.
    assert (Qltb stop start = true) as -> by by apply Qltb_lt.
    by destruct (positions !! stream_station_key tr). }
  apply IH.
Qed.

End KeyOrder.

Lemma station_keys_first_seen_witness :
  ∃ station_traces grid meta,
    prepare_meta (fun x => x) scenario1_stream scenario1_positions 0 10 1
    = Ok (station_traces, grid, meta)
    ∧ NoDup (map stream_station_key scenario1_stream)
    ∧ station_keys meta = ["XX.ABC"; "XX.DEF"; "XX.GHI"].
Proof.
  destruct (prepare_meta (fun x => x) scenario1_stream scenario1_positions 0 10 1)
    as [[[station_traces grid] meta]|e] eqn:Hrun; [|by vm_compute in Hrun].
  exists station_traces, grid, meta. split; [reflexivity|].
  assert (NoDup (map stream_station_key scenario1_stream)) as Hnd.
  { apply (bool_decide_unpack _). by vm_compute. }
  split; [exact Hnd|].
  destruct (station_keys_first_seen (fun x => x) _ _ _ _ _ _ _ _ Hrun)
    as (_ & _ & _ & Horder).
  rewrite (Horder Hnd). by vm_compute.
Defined.

Lemma reversed_window_keeps_nothing_witness :
  ∃ station_traces grid meta,
    10 < 20
    ∧ prepare_meta (fun x => x) scenario1_stream scenario1_positions 20 10 1
      = Ok (station_traces, grid, meta)
    ∧ station_keys meta = [].
Proof.
  destruct (prepare_meta (fun x => x) scenario1_stream scenario1_positions 20 10 1)
    as [[[station_traces grid] meta]|e] eqn:Hrun; [|by vm_compute in Hrun].
  exists station_traces, grid, meta. split; [reflexivity|]. split; [reflexivity|].
  apply (reversed_window_keeps_nothing (fun x => x) scenario1_stream
           scenario1_positions 20 10 1 _ _ _ eq_refl Hrun).
Defined.

(** ** The map window of [make_animation] *)

Lemma mapM_Forall2 {A B} (f : A → result B) (R : A → B → Prop) (l : list A) :
  (∀ x, x ∈ l → ∃ y, f x = Ok y ∧ R x y) →
  ∃ ys, mapM f l = Ok ys ∧ Forall2 R l ys.
Proof.
  induction l as [|x rest IH]; intros Hf.
  - exists []. split; [done|constructor].
  - destruct (Hf x) as (y & Hy & HR); [by left|].
    destruct IH as (ys & Hys & Hall); [intros z Hz; apply Hf; by right|].
    exists (y :: ys). cbn [mapM]. rewrite Hy, Hys. split; [done|by constructor].
Qed.

Lemma span_nonneg (vals : list Q) : 0 <= span vals.
Proof.
  unfold span. destruct vals as [|x [|y rest]]; [done|done|].
  destruct (py_min_list_spec (y :: rest) x) as [[Hlo _] _].
  destruct (py_max_list_spec (y :: rest) x) as [[Hhi _] _]. lra.
Qed.

Lemma window_side (vals : list Q) (x : Q) :
  x ∈ vals →
  ∃ lo hi, py_min vals = Ok lo ∧ py_max_of vals = Ok hi
           ∧ lo - span vals * (1 # 10) <= x ∧ x <= hi + span vals * (1 # 10).
Proof.
  intros Hx. pose proof (span_nonneg vals) as Hspan.
  destruct vals as [|v rest]; [inversion Hx|]. cbn [py_min py_max_of].
  eexists _, _. split; [done|]. split; [done|].
  destruct (py_min_list_spec rest v) as [[Hlo Hlos] _].
  destruct (py_max_list_spec rest v) as [[Hhi His] _].
  apply elem_of_cons in Hx as [->|Hx].
  - split; lra.
  - pose proof (Hlos x Hx). pose proof (His x Hx). split; lra.
Qed.

Section MapWindow.

Context (astype_float32 : Q → Q).

Lemma kept_key_has_position st positions start stop step station_traces grid meta key :
  prepare_meta astype_float32 st positions start stop step
  = Ok (station_traces, grid, meta) →
  key ∈ station_keys meta → is_Some (positions !! key).
Proof.
  intros Hrun Hkey. apply prepare_meta_inv in Hrun as (-> & _ & Hkeys & _).
  rewrite Hkeys in Hkey. apply dict_keys_get in Hkey as [tr3 Htr3].
  apply stored_origin in Htr3 as (tr & _ & <- & Hkept).
  by apply prepared_inv in Hkept as [Hpos _].
Qed.

(** X17: on what [prepare_meta] returned, with at least one station,
    [make_animation] finds a position for every station key (no
    [KeyError]) and, with Basemap at hand, computes a map window that
    contains every station; for a single station the window reaches one
    degree to each side. *)
Theorem map_window_contains_stations (st : Stream) (positions : Positions)
    (start stop step : Q) (station_traces : PyDict.t Trace) (grid : list Q)
    (meta : Meta) :
  prepare_meta astype_float32 st positions start stop step
  = Ok (station_traces, grid, meta) →
  station_keys meta ≠ [] →
  ∃ lats lons w,
    station_coordinates positions (station_keys meta) = Ok (lats, lons)
    ∧ map_window true lats lons = Ok w
    ∧ (∀ key, key ∈ station_keys meta →
         ∃ p, positions !! key = Some p
              ∧ llcrnrlat w <= fst p ∧ fst p <= urcrnrlat w
              ∧ llcrnrlon w <= snd p ∧ snd p <= urcrnrlon w)
    ∧ (length (station_keys meta) = 1%nat →
       urcrnrlat w - llcrnrlat w == 2 ∧ urcrnrlon w - llcrnrlon w == 2).
Proof.
  intros Hrun Hkeys.
  set (has_lat := fun (k : string) (lat : Q) =>
                    ∃ p, positions !! k = Some p ∧ lat = fst p).
  set (has_lon := fun (k : string) (lon : Q) =>
                    ∃ p, positions !! k = Some p ∧ lon = snd p).
  destruct (mapM_Forall2
              (fun k => match positions !! k with
                        | Some p => Ok (fst p)
                        | None => Raise KeyError
                        end) has_lat (station_keys meta)) as (lats & Hlats & Hall_lat).
  { intros k Hk. destruct (kept_key_has_position _ _ _ _ _ _ _ _ _ Hrun Hk) as [p Hp].
    rewrite Hp. exists (fst p). split; [done|]. by exists p. }
  destruct (mapM_Forall2
              (fun k => match positions !! k with
                        | Some p => Ok (snd p)
                        | None => Raise KeyError
                        end) has_lon (station_keys meta)) as (lons & Hlons & Hall_lon).
  { intros k Hk. destruct (kept_key_has_position _ _ _ _ _ _ _ _ _ Hrun Hk) as [p Hp].
    rewrite Hp. exists (snd p). split; [done|]. by exists p. }
  assert (lats ≠ []) as Hlat_ne.
  { apply Forall2_length in Hall_lat. destruct lats; [|done].
    by destruct (station_keys meta). }
  assert (lons ≠ []) as Hlon_ne.
  { apply Forall2_length in Hall_lon. destruct lons; [|done].
    by destruct (station_keys meta). }
  assert (∃ w, map_window true lats lons = Ok w
               ∧ llcrnrlat w = match lats with x :: r => py_min_list x r | [] => 0 end
                               - span lats * (1 # 10)
               ∧ urcrnrlat w = match lats with x :: r => py_max_list x r | [] => 0 end
                               + span lats * (1 # 10)
               ∧ llcrnrlon w = match lons with x :: r => py_min_list x r | [] => 0 end
                               - span lons * (1 # 10)
               ∧ urcrnrlon w = match lons with x :: r => py_max_list x r | [] => 0 end
                               + span lons * (1 # 10))
    as (w & Hw & Hllat & Hulat & Hllon & Hulon).
  { unfold map_window. destruct lats as [|la lats]; [done|].
    destruct lons as [|lo lons]; [done|]. cbn. eauto 10. }
  exists lats, lons, w.
  split; [unfold station_coordinates; by rewrite Hlats, Hlons|].
  split; [done|]. split.
  - intros key Hkey.
    apply list_elem_of_lookup in Hkey as [i Hi].
    destruct (Forall2_lookup_l _ _ _ _ _ Hall_lat Hi) as (lat & Hlat & p & Hp & ->).
    destruct (Forall2_lookup_l _ _ _ _ _ Hall_lon Hi) as (lon & Hlon & p' & Hp' & ->).
    rewrite Hp in Hp'. injection Hp' as <-.
    exists p. split; [done|].
    destruct (window_side lats (fst p)) as (lo & hi & Hlo & Hhi & H1 & H2).
    { by eapply list_elem_of_lookup_2. }
    destruct (window_side lons (snd p)) as (lo' & hi' & Hlo' & Hhi' & H3 & H4).
    { by eapply list_elem_of_lookup_2. }
    rewrite Hllat, Hulat, Hllon, Hulon.
    destruct lats as [|la lats]; [done|]. destruct lons as [|lo0 lons]; [done|].
    cbn [py_min py_max_of] in *. by simplify_eq.
  - intros Hone. apply Forall2_length in Hall_lat, Hall_lon.
    rewrite Hone in Hall_lat, Hall_lon.
    destruct lats as [|la [|? ?]]; try done. destruct lons as [|lo [|? ?]]; try done.
    rewrite Hllat, Hulat, Hllon, Hulon. cbn. split; ring.
Qed.

End MapWindow.

Lemma map_window_contains_stations_witness :
  ∃ station_traces grid meta lats lons w,
    prepare_meta (fun x => x) scenario1_stream scenario1_positions 0 10 1
    = Ok (station_traces, grid, meta)
    ∧ station_keys meta ≠ []
    ∧ station_coordinates scenario1_positions (station_keys meta) = Ok (lats, lons)
    ∧ map_window true lats lons = Ok w.
Proof.
  destruct (prepare_meta (fun x => x) scenario1_stream scenario1_positions 0 10 1)
    as [[[station_traces grid] meta]|e] eqn:Hrun; [|by vm_compute in Hrun].
  assert (station_keys meta ≠ []) as Hkeys.
  { vm_compute in Hrun. by injection Hrun as _ _ <-. }
  destruct (map_window_contains_stations (fun x => x) _ _ _ _ _ _ _ _ Hrun Hkeys)
    as (lats & lons & w & Hcoords & Hw & _).
  by exists station_traces, grid, meta, lats, lons, w.
Defined.

(** ** Rows the station table cannot read *)

Section BadRows.

Context (float_of_string : string → option Q).

Lemma unreadable_not_blank line :
  unreadable_number float_of_string line → String.eqb (Str.strip line) "" = false.
Proof.
  intros H. destruct (String.eqb_spec (Str.strip line) "") as [Hb|]; [|done].
  apply blank_fields in Hb.
  destruct H as [(? & ? & ? & Hf & _)|(? & ? & ? & ? & Hf & _)]; congruence.
Qed.

Lemma csv_row_unreadable d line :
  unreadable_number float_of_string line →
  csv_row float_of_string d line = Raise ValueError.
Proof.
  intros H. unfold csv_row. rewrite (unreadable_not_blank _ H).
  fold (fields line). unfold to_float.
  destruct H as [(a & b & c & -> & Hbad)|(a & b & c & e & -> & Hbad)];
    destruct Hbad as [->|Hbad]; try done.
  - destruct (float_of_string b); [|done]. by rewrite Hbad.
  - destruct (float_of_string c); [|done]. by rewrite Hbad.
Qed.

Lemma csv_row_raise_inv d line e :
  csv_row float_of_string d line = Raise e →
  e = ValueError ∧ unreadable_number float_of_string line.
Proof.
  unfold csv_row. destruct (String.eqb (Str.strip line) ""); [done|].
  fold (fields line). unfold to_float.
  destruct (fields line) as [|a [|b [|c [|g [|h rest]]]]] eqn:Hf; try done.
  - destruct (float_of_string b) as [la|] eqn:Hla.
    + destruct (float_of_string c) as [lo|] eqn:Hlo; [done|].
      intros [= <-]. split; [done|]. left. exists a, b, c. auto.
    + intros [= <-]. split; [done|]. left. exists a, b, c. auto.
  - destruct (float_of_string c) as [la|] eqn:Hla.
    + destruct (float_of_string g) as [lo|] eqn:Hlo; [done|].
      intros [= <-]. split; [done|]. right. exists a, b, c, g. auto.
    + intros [= <-]. split; [done|]. right. exists a, b, c, g. auto.
Qed.

Lemma csv_rows_raise rows d :
  (∃ line, line ∈ rows ∧ unreadable_number float_of_string line)
  ↔ csv_rows float_of_string d rows = Raise ValueError.
Proof.
  revert d. induction rows as [|line rest IH]; intros d; cbn [csv_rows].
  - split; [intros (l & Hl & _); inversion Hl|done].
  - destruct (csv_row float_of_string d line) as [d'|e] eqn:Hrow;
      cbn [mbind result_bind].
    + rewrite <- IH. split.
      * intros (l & Hl & Hbad). apply elem_of_cons in Hl as [->|Hl]; [|eauto].
        rewrite (csv_row_unreadable _ _ Hbad) in Hrow. done.
      * intros (l & Hl & Hbad). exists l. split; [by right|done].
    + apply csv_row_raise_inv in Hrow as [-> Hbad]. split; [done|].
      intros _. exists line. split; [by left|done].
Qed.

Lemma csv_rows_raise_value rows d e :
  csv_rows float_of_string d rows = Raise e → e = ValueError.
Proof.
  revert d. induction rows as [|line rest IH]; intros d; cbn [csv_rows]; [done|].
  destruct (csv_row float_of_string d line) as [d'|e'] eqn:Hrow;
    cbn [mbind result_bind]; [apply IH|].
  apply csv_row_raise_inv in Hrow as [-> _]. congruence.
Qed.

(** X18: the loader raises exactly when some row after the header has
    three or four fields and a latitude or longitude that [float] refuses;
    the exception is a [ValueError], whatever the other rows hold, and
    [main], which does not catch it, ends with it. *)
Theorem unreadable_number_aborts_load (header : string) (rows : list string) :
  ((∃ line, line ∈ rows ∧ unreadable_number float_of_string line)
   ↔ load_station_csv float_of_string (header :: rows) = Raise ValueError)
  ∧ (∀ e, load_station_csv float_of_string (header :: rows) = Raise e →
          e = ValueError)
  ∧ (∀ env st inferred,
       station_xml env = None → station_csv env = Some (header :: rows) →
       (∃ line, line ∈ rows ∧ unreadable_number float_of_string line) →
       resolve_positions float_of_string env st inferred = Raise ValueError).
Proof.
  unfold load_station_csv. cbn [tail]. split; [apply csv_rows_raise|].
  split; [intros e; apply csv_rows_raise_value|].
  intros env st inferred Hxml Hcsv Hbad. unfold resolve_positions.
  rewrite Hxml, Hcsv. unfold load_station_csv. cbn [tail].
  apply (csv_rows_raise rows ∅) in Hbad. by rewrite Hbad.
Qed.

End BadRows.

Lemma unreadable_number_aborts_load_witness :
  unreadable_number decimal_literal "XX,DEF,north,-123.5"
  ∧ load_station_csv decimal_literal csv_with_bad_number = Raise ValueError.
Proof.
  assert (unreadable_number decimal_literal "XX,DEF,north,-123.5") as Hbad.
  { right. exists "XX", "DEF", "north", "-123.5". split; [by vm_compute|by left]. }
  split; [exact Hbad|].
  apply (unreadable_number_aborts_load decimal_literal
           "network,station,latitude,longitude"
           ["XX,ABC,45.1,-123.4"; "XX,DEF,north,-123.5"]).
  exists "XX,DEF,north,-123.5". split; [|exact Hbad]. right. by left.
Defined.

(** ** Discovering the files *)

Lemma insert_sorted_perm (x : string) (l : list string) :
  insert_sorted x l ≡ₚ x :: l.
Proof.
  induction l as [|y rest IH]; [done|]. cbn [insert_sorted].
  destruct (String.leb x y); [done|]. rewrite IH. apply Permutation_swap.
Qed.

Lemma insert_sorted_head (x a : string) (l : list string) :
  name_le a x → HdRel name_le a l → HdRel name_le a (insert_sorted x l).
Proof.
  intros Hax Hal. destruct l as [|y rest]; cbn [insert_sorted].
  - by constructor.
  - destruct (String.leb x y); constructor; [done|]. by inversion Hal.
Qed.

Lemma insert_sorted_sorted (x : string) (l : list string) :
  Sorted name_le l → Sorted name_le (insert_sorted x l).
Proof.
  induction l as [|y rest IH]; intros Hs; cbn [insert_sorted].
  - by repeat constructor.
  - destruct (String.leb x y) eqn:E.
    + constructor; [done|]. by constructor.
    + inversion Hs as [|? ? Hrest Hhd]; subst. constructor; [by apply IH|].
      apply insert_sorted_head; [|done]. unfold name_le.
      destruct (String.leb_total x y) as [H|H]; [congruence|done].
Qed.

Lemma elem_of_concat {A} (x : A) (ls : list (list A)) :
  x ∈ concat ls ↔ ∃ l, x ∈ l ∧ l ∈ ls.
Proof.
  induction ls as [|l0 rest IH]; cbn [concat].
  - split; [intros H; inversion H|intros (l & _ & H); inversion H].
  - rewrite elem_of_app, IH. split.
    + intros [H|(l & Hx & Hl)]; [exists l0; split; [done|by left]|].
      exists l. split; [done|by right].
    + intros (l & Hx & Hl). apply elem_of_cons in Hl as [->|Hl]; [by left|].
      right. eauto.
Qed.

Section Discovered.

Context (glob : string → list string).

(** X19: [find_waveforms] returns the paths the six patterns match, each
    as often as the globs give it, in ascending order; it returns nothing
    exactly when no pattern matches anything. *)
Theorem find_waveforms_sorted_matches :
  Sorted name_le (find_waveforms glob)
  ∧ find_waveforms glob ≡ₚ concat (map glob patterns)
  ∧ (∀ fn, fn ∈ find_waveforms glob ↔ ∃ p, p ∈ patterns ∧ fn ∈ glob p)
  ∧ (find_waveforms glob = [] ↔ ∀ p, p ∈ patterns → glob p = []).
Proof.
  assert (∀ l, Sorted name_le (sorted l) ∧ sorted l ≡ₚ l) as Hsort.
  { induction l as [|x rest [IHs IHp]]; [split; [constructor|done]|].
    cbn [sorted foldr]. split; [by apply insert_sorted_sorted|].
    rewrite insert_sorted_perm. by constructor. }
  assert (foldl (fun files p => files ++ glob p) [] patterns
          = concat (map glob patterns)) as Hfiles.
  { cbn. by rewrite !app_nil_r, <- !app_assoc. }
  unfold find_waveforms. rewrite Hfiles.
  destruct (Hsort (concat (map glob patterns))) as [Hs Hp].
  split; [done|]. split; [done|]. split.
  - intros fn. rewrite Hp, elem_of_concat. split.
    + intros (l & Hfn & Hl). apply list_elem_of_fmap in Hl as (p & -> & Hin). eauto.
    + intros (p & Hin & Hfn). exists (glob p). split; [done|].
      apply list_elem_of_fmap. eauto.
  - split.
    + intros Hnil p Hin. rewrite Hnil in Hp. symmetry in Hp.
      apply Permutation_nil_r in Hp.
      destruct (glob p) as [|fn rest] eqn:Eg; [done|]. exfalso.
      assert (fn ∈ concat (map glob patterns)) as Hfn.
      { apply elem_of_concat. exists (glob p). split; [rewrite Eg; by left|].
        apply list_elem_of_fmap. eauto. }
      rewrite Hp in Hfn. inversion Hfn.
    + intros Hall. apply Permutation_nil_r. rewrite Hp.
      assert (concat (map glob patterns) = []) as ->; [|done].
      unfold patterns. cbn. rewrite !Hall; [done|..]; unfold patterns;
        rewrite !elem_of_cons; auto 10.
Qed.

End Discovered.

(** ** Which files go to segyio *)

Lemma append_cons (c : ascii) (a b : string) :
  String c a +:+ b = String c (a +:+ b).
Proof. reflexivity. Qed.

Lemma string_length_app (a b : string) :
  String.length (a +:+ b) = (String.length a + String.length b)%nat.
Proof.
  induction a as [|c a IH]; [done|].
  rewrite append_cons. cbn [String.length Nat.add]. by rewrite IH.
Qed.

Lemma lower_app (a b : string) :
  Str.lower (a +:+ b) = Str.lower a +:+ Str.lower b.
Proof.
  induction a as [|c a IH]; [done|].
  rewrite append_cons. cbn [Str.lower]. by rewrite append_cons, IH.
Qed.

Lemma lower_length (a : string) : String.length (Str.lower a) = String.length a.
Proof.
  induction a as [|c a IH]; [done|].
  cbn [Str.lower String.length]. by rewrite IH.
Qed.

Lemma lower_ascii_idemp (c : ascii) :
  Str.lower_ascii (Str.lower_ascii c) = Str.lower_ascii c.
Proof. by destruct c as [[] [] [] [] [] [] [] []]. Qed.

Lemma lower_idemp (a : string) : Str.lower (Str.lower a) = Str.lower a.
Proof.
  induction a as [|c a IH]; [done|].
  cbn [Str.lower]. rewrite IH. f_equal. apply lower_ascii_idemp.
Qed.

Lemma substring_skip (a b : string) (i k : nat) :
  substring (String.length a + i) k (a +:+ b) = substring i k b.
Proof.
  induction a as [|c a IH]; [done|].
  rewrite append_cons. cbn [String.length Nat.add substring]. exact IH.
Qed.

Lemma endswith_app (a b suffix : string) :
  (String.length suffix <= String.length b)%nat →
  Str.endswith (a +:+ b) suffix = Str.endswith b suffix.
Proof.
  intros Hlen. unfold Str.endswith. rewrite string_length_app.
  destruct (Nat.leb_spec (String.length suffix) (String.length a + String.length b))
    as [_|?]; [|lia].
  destruct (Nat.leb_spec (String.length suffix) (String.length b)) as [_|?]; [|lia].
  replace (String.length a + String.length b - String.length suffix)%nat
    with (String.length a + (String.length b - String.length suffix))%nat by lia.
  by rewrite substring_skip.
Qed.

Lemma string_snoc (a : string) :
  a ≠ EmptyString → ∃ a' c, a = a' +:+ String c EmptyString.
Proof.
  induction a as [|c a IH]; [done|]. intros _.
  destruct a as [|c' a].
  - by exists EmptyString, c.
  - destruct IH as (a' & c0 & Heq); [done|].
    exists (String c a'), c0. by rewrite append_cons, <- Heq.
Qed.

Lemma string_app_snoc (a b : string) (c : ascii) :
  (a +:+ String c EmptyString) +:+ b = a +:+ String c b.
Proof.
  induction a as [|c' a IH]; [done|]. by rewrite !append_cons, IH.
Qed.

(** A four-character extension never ends in [.segy]. *)
Lemma endswith_segy_short (a ext : string) :
  String.length ext = 4%nat →
  (∀ c, String.eqb (String c ext) ".segy" = false) →
  Str.endswith (a +:+ ext) ".segy" = false.
Proof.
  intros Hlen Hne. destruct a as [|c0 a0] eqn:Ea.
  - change (EmptyString +:+ ext) with ext. unfold Str.endswith. by rewrite Hlen.
  - destruct (string_snoc (String c0 a0)) as (a' & c & Heq); [done|].
    rewrite Heq, string_app_snoc, endswith_app
      by (cbn [String.length]; rewrite Hlen; done).
    specialize (Hne c).
    destruct ext as [|c1 [|c2 [|c3 [|c4 [|c5 rest]]]]]; try discriminate Hlen.
    exact Hne.
Qed.

(** The extension alone decides, whatever precedes it. *)
Lemma is_segy_name_lower (s ext low : string) :
  Str.lower ext = low → (4 <= String.length low)%nat →
  (∀ c, String.eqb (String c low) ".segy" = false) →
  is_segy_name (s +:+ ext) = is_segy_name low.
Proof.
  intros Hlow Hlen Hne. unfold is_segy_name.
  rewrite lower_app, Hlow.
  rewrite (endswith_app _ low ".sgy") by (cbn [String.length]; lia).
  assert (Str.lower low = low) as -> by (by rewrite <- Hlow, lower_idemp).
  f_equal.
  destruct (decide (String.length low = 4%nat)) as [H4|H4].
  - rewrite endswith_segy_short by done.
    unfold Str.endswith. by rewrite H4.
  - by rewrite endswith_app by (cbn [String.length]; lia).
Qed.

(** X20: of the names [find_waveforms] can return, those ending in
    [.sgy] or [.segy], in any letter case, are SEG-Y names for the read
    loop, and those ending in [.seg-y], [.mseed], [.msd] or [.sac] are
    not; so a [.seg-y] file is always read by ObsPy and never adds a
    position. *)
Theorem segy_names_by_extension (s : string) :
  (∀ ext, Str.lower ext = ".sgy" ∨ Str.lower ext = ".segy" →
          is_segy_name (s +:+ ext) = true)
  ∧ (∀ ext, Str.lower ext ∈ [".seg-y"; ".mseed"; ".msd"; ".sac"] →
            is_segy_name (s +:+ ext) = false)
  ∧ (∀ env acc f log ext,
       Str.lower ext = ".seg-y" → path f = s +:+ ext →
       read_file env acc f log
       = match obspy_read f with
         | Ok st => (log, Next (fst acc ++ st, snd acc))
         | Raise _ => (log ++ [Printed (WarnRead (path f))], Next acc)
         end).
Proof.
  assert (∀ low c, low ∈ [".sgy"; ".segy"; ".seg-y"; ".mseed"; ".msd"; ".sac"] →
                   String.eqb (String c low) ".segy" = false) as Hne.
  { intros low c Hin. rewrite !elem_of_cons, elem_of_nil in Hin.
    destruct Hin as [->|[->|[->|[->|[->|[->|[]]]]]]]; cbn;
      by destruct (Ascii.eqb c "."). }
  assert (∀ ext low, low ∈ [".sgy"; ".segy"; ".seg-y"; ".mseed"; ".msd"; ".sac"] →
                     Str.lower ext = low →
                     is_segy_name (s +:+ ext) = is_segy_name low) as Hext.
  { intros ext low Hin Hlow. apply is_segy_name_lower; [done| |by intros c; apply Hne].
    rewrite !elem_of_cons, elem_of_nil in Hin.
    destruct Hin as [->|[->|[->|[->|[->|[->|[]]]]]]]; cbn; lia. }
  split; [|split].
  - intros ext [Hlow|Hlow].
    + by rewrite (Hext ext ".sgy") by (rewrite ?elem_of_cons; eauto 10).
    + by rewrite (Hext ext ".segy") by (rewrite ?elem_of_cons; eauto 10).
  - intros ext Hin.
    assert (Str.lower ext ∈ [".sgy"; ".segy"; ".seg-y"; ".mseed"; ".msd"; ".sac"])
      as Hsix.
    { rewrite !elem_of_cons, elem_of_nil in Hin. rewrite !elem_of_cons.
      destruct Hin as [H|[H|[H|[H|[]]]]]; auto 10. }
    rewrite (Hext ext _ Hsix eq_refl).
    rewrite !elem_of_cons, elem_of_nil in Hin.
    by destruct Hin as [->|[->|[->|[->|[]]]]].
  - intros env acc f log ext Hlow Hpath.
    assert (is_segy_name (path f) = false) as Hdash.
    { rewrite Hpath, (Hext ext ".seg-y") by (rewrite ?elem_of_cons; eauto 10).
      reflexivity. }
    unfold read_file. rewrite Hdash.
    cbn [andb]. unfold print, emit, mbind, run_bind, mret, run_ret.
    by destruct (obspy_read f).
Qed.

(** ** What is rendered is what was checked *)

Lemma safety_checks_next_inv env positions start stop log log' u :
  safety_checks env positions start stop log = (log', Next u) →
  ∃ n, n_frames_of start stop (time_step env) = Ok n
       ∧ (0 < n <= max_frames env)%Z
       ∧ est_mb_of (est_bytes_of n (n_stations_of positions)) * safety_multiplier
         <= inject_Z (max_mem_mb env)
       ∧ dry_run env = false.
Proof.
  unfold safety_checks.
  destruct (n_frames_of start stop (time_step env)) as [n|e];
    unfold propagate, raise, when, print, emit, sys_exit, mbind, run_bind, mret, run_ret;
    [|done].
  destruct (Z.leb_spec n 0) as [?|Hpos]; [done|].
  destruct (Z.ltb_spec (max_frames env) n) as [?|Hmax]; [done|].
  destruct (Qltb _ _) eqn:Hmem; [done|]. apply Qltb_ge in Hmem.
  destruct (dry_run env); [done|]. intros _. exists n. repeat split; done || lia.
Qed.

Lemma frames_positive_step (start stop step : Q) (n : Z) :
  n_frames_of start stop step = Ok n → (0 < n)%Z →
  start < stop ∧ 0 < step ∧ n = Qceiling ((stop - start) / step).
Proof.
  unfold n_frames_of. destruct (Qltb 0 (stop - start)) eqn:Ed; [|intros [= <-]; lia].
  apply Qltb_lt in Ed. destruct (Qeq_bool step 0) eqn:Es; [done|].
  intros [= <-] Hn. split; [lra|]. split; [|done].
  destruct (Qlt_le_dec 0 step) as [Hs|Hs]; [done|]. exfalso.
  assert (¬ step == 0) as Hne by (intros H; apply Qeq_bool_iff in H; congruence).
  assert (step < 0) as Hneg.
  { destruct (Qlt_le_dec step 0) as [?|Hge]; [done|]. exfalso. apply Hne. lra. }
  assert ((stop - start) / step <= 0) as Hq.
  { assert ((stop - start) / step == - ((stop - start) / - step)) as ->
      by (field; lra).
    assert (0 < (stop - start) / - step) by (apply Qdiv_pos; lra). lra. }
  apply Qceiling_resp_le in Hq. change (Qceiling 0) with 0%Z in Hq. lia.
Qed.

Section Rendered.

Context (float_of_string : string → option Q).
Context (astype_float32 : Q → Q).

(** X21: a run that passes the safety checks prepares exactly the number
    of frames that was checked, at most [--max-frames] and at least one,
    and keeps at most as many stations as the estimate counted, so that
    frames x kept stations x 4 bytes x 1.5 stays within [--max-mem-mb]. *)
Theorem rendered_within_checked (env : Env) (log log' : list Event)
    (st : Stream) (positions : Positions) (start stop : Q) :
  setup float_of_string env [] = (log, Next (st, positions, start, stop)) →
  safety_checks env positions start stop log = (log', Next tt) →
  ∃ station_traces grid meta,
    prepare_meta astype_float32 st positions start stop (time_step env)
    = Ok (station_traces, grid, meta)
    ∧ n_frames_of start stop (time_step env) = Ok (Z.of_nat (length grid))
    ∧ (1 <= length grid)%nat ∧ (Z.of_nat (length grid) <= max_frames env)%Z
    ∧ (length (station_keys meta) <= size positions)%nat
    ∧ spec_scaled_mib (Z.of_nat (length grid)) (length (station_keys meta))
      <= inject_Z (max_mem_mb env).
Proof.
  intros Hsetup Hchecks.
  pose proof (setup_positions_nonempty _ _ _ _ _ _ _ _ Hsetup) as Hsize.
  apply safety_checks_next_inv in Hchecks as (n & Hn & [Hpos Hmax] & Hmem & _).
  destruct (frames_positive_step _ _ _ _ Hn Hpos) as (Hlt & Hstep & Hceil).
  destruct (arange_spec start stop (time_step env) Hlt Hstep) as (grid & Hgrid & Hlen & _).
  assert (Z.of_nat (length grid) = n) as Hlen_n by congruence.
  unfold prepare_meta.
  destruct (prepare_loop astype_float32 st positions start stop)
    as [station_traces station_max] eqn:Hloop.
  rewrite Hgrid. cbn [mbind result_bind].
  eexists station_traces, grid, _. split; [done|]. cbn [station_keys].
  split; [by rewrite Hlen_n|]. split; [lia|]. split; [lia|].
  assert (length (PyDict.keys station_traces) <= size positions)%nat as Hkeys.
  { destruct (prepare_fold_keys astype_float32 positions start stop st ([], []))
      as [Hnd _]; [constructor|done|].
    fold (prepare_loop astype_float32 st positions start stop) in Hnd.
    rewrite Hloop in Hnd. cbn [fst] in Hnd.
    rewrite <- (size_dom positions).
    rewrite <- (size_list_to_set (C := gset string) _ Hnd).
    apply subseteq_size. intros key Hkey. apply elem_of_list_to_set in Hkey.
    apply elem_of_dom. apply dict_keys_get in Hkey as [tr3 Htr3].
    assert (station_traces
            = fst (prepare_loop astype_float32 st positions start stop)) as Hfst
      by by rewrite Hloop.
    rewrite Hfst in Htr3.
    apply stored_origin in Htr3 as (tr & _ & <- & Hkept).
    by apply prepared_inv in Hkept as [Hp _]. }
  split; [done|].
  rewrite (scaled_estimate n positions Hsize) in Hmem. rewrite Hlen_n.
  eapply Qle_trans; [|exact Hmem]. unfold spec_scaled_mib.
  apply Qmult_le_compat_r; [|done]. apply Qdiv_le_num; [reflexivity|].
  rewrite <- Zle_Qle. nia.
Qed.

End Rendered.

Lemma rendered_within_checked_witness :
  ∃ log log' st positions start stop station_traces grid meta,
    setup decimal_literal env_sac_with_csv [] = (log, Next (st, positions, start, stop))
    ∧ safety_checks env_sac_with_csv positions start stop log = (log', Next tt)
    ∧ prepare_meta (fun x => x) st positions start stop (time_step env_sac_with_csv)
      = Ok (station_traces, grid, meta)
    ∧ (1 <= length grid)%nat.
Proof.
  assert (setup decimal_literal env_sac_with_csv []
          = ([Printed (FoundFiles 1)],
             Next ([sac_trace_abc], {[ "XX.DEF" := (45.2, -123.5) ]}, 0, 10)))
    as Hsetup by (vm_compute; reflexivity).
  assert (safety_checks env_sac_with_csv {[ "XX.DEF" := (45.2, -123.5) ]} 0 10
            [Printed (FoundFiles 1)]
          = ([Printed (FoundFiles 1); Printed (Generating 10 1)], Next tt))
    as Hchecks by (vm_compute; reflexivity).
  destruct (rendered_within_checked decimal_literal (fun x => x)
              env_sac_with_csv _ _ _ _ _ _ Hsetup Hchecks)
    as (station_traces & grid & meta & Hrun & _ & Hone & _).
  eexists _, _, _, _, _, _, station_traces, grid, meta.
  split; [exact Hsetup|]. split; [exact Hchecks|]. split; [exact Hrun|exact Hone].
Defined.
